(** * slice_recordings.py: utterance slicing, reaction time and duration

    A shallow embedding of [src/mainCode/slice_recordings.py].

    Conventions of the embedding:
    - Python integers are [Z]; frame indices may leave the valid range
      (the left scan can reach [-1], the right scan can reach the length
      of the envelope), so they are never natural numbers here.
    - Floating-point energies, thresholds and times are exact rationals
      [Q] (no rounding); the durations read from the sheet, and the
      reaction times computed from them, may also be NaN.
    - A [while] loop whose number of iterations is not bounded by its
      guard takes a [fuel : nat]; running out of fuel is the outcome
      [OutOfFuel], distinct from every Python result.
    - Python exceptions are the outcome [Raise e]; nothing in the source
      catches an exception, so [Raise] propagates to the top.
    - External libraries (librosa, noisereduce, unidecode, os.path) are
      gathered in the record [libs]; the model is parametric in them. *)

From Stdlib Require Import ZArith QArith List String Ascii Bool Lia Lqa.
Import ListNotations.
Open Scope Z_scope.

(* ------------------------------------------------------------------ *)
(** ** Python outcomes                                                   *)
(* ------------------------------------------------------------------ *)

Inductive exn : Type :=
  | IndexError      (* sequence index out of range *)
  | KeyError        (* dict lookup of an absent key *)
  | TypeError       (* unpacking [None] *)
  | AttributeError  (* [match.group] on [None] *)
  | ValueError      (* [np.max] of an empty array *)
  | LoadError.      (* whatever [librosa.load] raises on a bad file *)

Inductive outcome (A : Type) : Type :=
  | Return (a : A)
  | Raise (e : exn)
  | OutOfFuel.

Arguments Return {A} a.
Arguments Raise {A} e.
Arguments OutOfFuel {A}.

Definition bind {A B : Type} (m : outcome A) (k : A -> outcome B) : outcome B :=
  match m with
  | Return a => k a
  | Raise e => Raise e
  | OutOfFuel => OutOfFuel
  end.

Notation "x <- m ;; k" := (bind m (fun x => k))
  (at level 61, m at next level, right associativity).

Definition of_option {A : Type} (e : exn) (o : option A) : outcome A :=
  match o with
  | Some a => Return a
  | None => Raise e
  end.

(* ------------------------------------------------------------------ *)
(** ** Configuration constants (lines 25-36)                             *)
(* ------------------------------------------------------------------ *)

Definition FRAME_SIZE : Z := 1024.
Definition HOP_LENGTH : Z := 256.
Definition THRESHOLD : Q := 0.015.
Definition THRESHOLD_END : Q := 0.015.
Definition MAX_PAUSE_FRAMES : Z := 20.
Definition NORMALIZE_RMS : bool := true.

(** [librosa.frames_to_time] is called without [sr], and [librosa.load]
    without [sr]: both use librosa's default rate. *)
Definition LIBROSA_DEFAULT_SR : Q := 22050.

(* ------------------------------------------------------------------ *)
(** ** Comparisons and array primitives                                  *)
(* ------------------------------------------------------------------ *)

(** [x > y] and [x < y] on energies. *)
Definition Qgtb (x y : Q) : bool := negb (Qle_bool x y).
Definition Qltb (x y : Q) : bool := negb (Qle_bool y x).

(** [rms_sound[i]] for an index the loop guards keep inside the array. *)
Definition rms_get (rms_sound : list Q) (i : Z) : Q :=
  nth (Z.to_nat i) rms_sound 0%Q.

(** [rms_sound.size] *)
Definition size (rms_sound : list Q) : Z := Z.of_nat (List.length rms_sound).

Definition np_max (l : list Q) : Q :=
  match l with
  | [] => 0%Q
  | x :: l' => fold_left (fun m y => if Qltb m y then y else m) l' x
  end.

Definition np_min (l : list Q) : Q :=
  match l with
  | [] => 0%Q
  | x :: l' => fold_left (fun m y => if Qltb y m then y else m) l' x
  end.

(** [np.argmax]: the first index holding the maximum. *)
Fixpoint argmax_from (best_i : Z) (best : Q) (i : Z) (l : list Q) : Z :=
  match l with
  | [] => best_i
  | x :: l' =>
      if Qltb best x then argmax_from i x (i + 1) l'
      else argmax_from best_i best (i + 1) l'
  end.

Definition np_argmax (l : list Q) : Z :=
  match l with
  | [] => 0
  | x :: l' => argmax_from 0 x 1 l'
  end.

(** Line 78: [(rms_sound - min) / (max - min)]. *)
Definition normalize (rms_sound : list Q) : list Q :=
  let lo := np_min rms_sound in
  let hi := np_max rms_sound in
  map (fun x => ((x - lo) / (hi - lo))%Q) rms_sound.

(* ------------------------------------------------------------------ *)
(** ** The two bounded-pause expansions (lines 86-113)                   *)
(* ------------------------------------------------------------------ *)

(** Line 93, the inner loop of the left scan:
    [while start - count >= 0 and rms_sound[start-count] < threshold
           and count < MAX_PAUSE_FRAMES: count += 1].
    The third conjunct bounds the iterations by the cap, so [n] is the
    number of iterations still allowed ([n = max_pause - count]); at
    [n = 0] the guard [count < max_pause] is false and the loop exits. *)
Fixpoint left_probe (n : nat) (rms_sound : list Q) (threshold : Q)
    (start count : Z) : Z :=
  match n with
  | O => count
  | S n' =>
      if (0 <=? start - count) && Qltb (rms_get rms_sound (start - count)) threshold
      then left_probe n' rms_sound threshold start (count + 1)
      else count
  end.

(** Lines 89-98: one iteration of the left loop, from [start] with
    [flag = True], to the next [(start, flag)]. *)
Definition left_body (rms_sound : list Q) (threshold : Q) (max_pause : Z)
    (start : Z) : Z * bool :=
  if Qgtb (rms_get rms_sound start) threshold then (start - 1, true)
  else
    let count := left_probe (Z.to_nat max_pause) rms_sound threshold start 0 in
    if (start - count =? -1) || (count =? max_pause) then (start, false)
    else (start - count, true).

(** Line 88: [while start >= 0 and flag: ...]; the value of [start]
    when the loop exits. *)
Fixpoint left_loop (fuel : nat) (rms_sound : list Q) (threshold : Q)
    (max_pause : Z) (start : Z) (flag : bool) : option Z :=
  if (0 <=? start) && flag then
    match fuel with
    | O => None
    | S fuel' =>
        let '(start', flag') := left_body rms_sound threshold max_pause start in
        left_loop fuel' rms_sound threshold max_pause start' flag'
    end
  else Some start.

(** Line 108, the inner loop of the right scan. *)
Fixpoint right_probe (n : nat) (rms_sound : list Q) (threshold_end : Q)
    (end_ count : Z) : Z :=
  match n with
  | O => count
  | S n' =>
      if (end_ + count <? size rms_sound)
         && Qltb (rms_get rms_sound (end_ + count)) threshold_end
      then right_probe n' rms_sound threshold_end end_ (count + 1)
      else count
  end.

(** Lines 104-113: one iteration of the right loop. *)
Definition right_body (rms_sound : list Q) (threshold_end : Q) (max_pause : Z)
    (end_ : Z) : Z * bool :=
  if Qgtb (rms_get rms_sound end_) threshold_end then (end_ + 1, true)
  else
    let count := right_probe (Z.to_nat max_pause) rms_sound threshold_end end_ 0 in
    if (end_ + count =? size rms_sound) || (count =? max_pause) then (end_, false)
    else (end_ + count, true).

(** Line 103: [while end < rms_sound.size and flag: ...]. *)
Fixpoint right_loop (fuel : nat) (rms_sound : list Q) (threshold_end : Q)
    (max_pause : Z) (end_ : Z) (flag : bool) : option Z :=
  if (end_ <? size rms_sound) && flag then
    match fuel with
    | O => None
    | S fuel' =>
        let '(end', flag') := right_body rms_sound threshold_end max_pause end_ in
        right_loop fuel' rms_sound threshold_end max_pause end' flag'
    end
  else Some end_.

(** Lines 83-113: both scans from [middle = np.argmax(rms_sound)]; the
    pair [(start, end)] before the lexical end extension. *)
Definition boundary_search (fuel : nat) (rms_sound : list Q)
    (threshold threshold_end : Q) (max_pause : Z) : option (Z * Z) :=
  let middle := np_argmax rms_sound in
  match left_loop fuel rms_sound threshold max_pause middle true with
  | None => None
  | Some start =>
      match right_loop fuel rms_sound threshold_end max_pause middle true with
      | None => None
      | Some end_ => Some (start, end_)
      end
  end.

(* ------------------------------------------------------------------ *)
(** ** Strings, paths and the filename pattern                           *)
(* ------------------------------------------------------------------ *)

Fixpoint string_rev (s : string) : string :=
  match s with
  | EmptyString => EmptyString
  | String c s' => (string_rev s' ++ String c EmptyString)%string
  end.

(** [s.endswith(suffix)] and [s.startswith(p)] *)
Definition endswith (s suffix : string) : bool :=
  String.prefix (string_rev suffix) (string_rev s).

Definition startswith (s p : string) : bool := String.prefix p s.

(** [str.lower] on the ASCII letters; other bytes are kept. *)
Definition ascii_lower (c : ascii) : ascii :=
  let n := nat_of_ascii c in
  if ((65 <=? n) && (n <=? 90))%nat then ascii_of_nat (n + 32) else c.

Fixpoint lower (s : string) : string :=
  match s with
  | EmptyString => EmptyString
  | String c s' => String (ascii_lower c) (lower s')
  end.

(** [word[-1]]: [None] stands for the IndexError on an empty word. *)
Fixpoint last_char (word : string) : option ascii :=
  match word with
  | EmptyString => None
  | String c EmptyString => Some c
  | String _ rest => last_char rest
  end.

(** [os.path.join(a, b)] of posixpath. *)
Definition path_join (a b : string) : string :=
  if startswith b "/" then b
  else if String.eqb a "" || endswith a "/" then (a ++ b)%string
  else (a ++ "/" ++ b)%string.

Definition newline : ascii := ascii_of_nat 10.

(** The lazy group [(.*?)] followed by [\)]: the text up to the nearest
    closing parenthesis; [.] does not match a newline. *)
Fixpoint until_close (s : string) : option string :=
  match s with
  | EmptyString => None
  | String c s' =>
      if Ascii.eqb c ")" then Some EmptyString
      else if Ascii.eqb c newline then None
      else option_map (String c) (until_close s')
  end.

(** Lines 136-137: [re.search(r'\((.*?)\)', file_name)], as the content
    of group 1 of the leftmost match, or [None] when nothing matches. *)
Fixpoint re_search_parens (s : string) : option string :=
  match s with
  | EmptyString => None
  | String c s' =>
      if Ascii.eqb c "(" then
        match until_close s' with
        | Some w => Some w
        | None => re_search_parens s'
        end
      else re_search_parens s'
  end.

(* ------------------------------------------------------------------ *)
(** ** Python sequences and dicts                                        *)
(* ------------------------------------------------------------------ *)

(** Line 81: [t = librosa.frames_to_time(range(n), hop_length=HOP_LENGTH)],
    so [t[i] = i * HOP_LENGTH / 22050] for [0 <= i < n]. *)
Definition frames_to_time (i : Z) : Q :=
  (inject_Z (i * HOP_LENGTH) / LIBROSA_DEFAULT_SR)%Q.

(** [t[i]] with Python's indexing: a negative index counts from the end,
    an index outside [-n, n) raises IndexError ([None]). *)
Definition t_at (n i : Z) : option Q :=
  if (0 <=? i) && (i <? n) then Some (frames_to_time i)
  else if (- n <=? i) && (i <? 0) then Some (frames_to_time (n + i))
  else None.

Definition clamp_index (len i : Z) : Z :=
  if i <? 0 then Z.max (i + len) 0 else Z.min i len.

(** [l[a:b]] with Python's slicing (never raises). *)
Definition py_slice {A : Type} (l : list A) (a b : Z) : list A :=
  let len := Z.of_nat (List.length l) in
  let a' := clamp_index len a in
  let b' := clamp_index len b in
  firstn (Z.to_nat (b' - a')) (skipn (Z.to_nat a') l).

(** A Python float as a cell of the sheet and a reaction time can hold
    it: a finite number or NaN. *)
Inductive pyfloat : Type :=
  | Finite (q : Q)
  | NaN.

(** A cell of the sheet's duration column as [pd.read_excel] delivers
    it: a float (NaN for a blank cell) or text. *)
Inductive cell : Type :=
  | Float (x : pyfloat)
  | Text (s : string).

(** A cell holding the finite number [q]. *)
Definition number (q : Q) : cell := Float (Finite q).

(** A Python dict from words to durations, in insertion order. *)
Definition dict : Type := list (string * cell).

Fixpoint dict_get (d : dict) (k : string) : option cell :=
  match d with
  | [] => None
  | (k', v) :: d' => if String.eqb k k' then Some v else dict_get d' k
  end.

(** [d[k] = v]: overwrite in place, or append a new key. *)
Fixpoint dict_set (d : dict) (k : string) (v : cell) : dict :=
  match d with
  | [] => [(k, v)]
  | (k', v') :: d' =>
      if String.eqb k k' then (k', v) :: d' else (k', v') :: dict_set d' k v
  end.

(* ------------------------------------------------------------------ *)
(** ** External libraries                                                *)
(* ------------------------------------------------------------------ *)

Record libs : Type := {
  (** [librosa.load(path)]: the samples, resampled to 22050 Hz (the
      default [sr]); [None] when the file cannot be decoded (it raises). *)
  librosa_load : string -> option (list Q);
  (** Lines 66-70: two passes of [nr.reduce_noise(y, sr, ...)] followed by
      [librosa.feature.rms(...)[0]]; the denoised signal has the length
      of its input. *)
  analysis_envelope : list Q -> Q -> list Q;
  (** [unidecode.unidecode] *)
  unidecode : string -> string;
  (** [os.path.relpath(path, start)] *)
  relpath : string -> string -> string;
  (** [os.walk(top)]: the [(root, files)] pairs in traversal order. *)
  os_walk : string -> list (string * list string);
  (** [pd.read_excel(path)]: the rows [(Word, Modified Duration)]. *)
  read_excel : string -> list (string * cell)
}.

(* ------------------------------------------------------------------ *)
(** ** slice_noise_reduced_audio_files_byt (lines 56-123)                *)
(* ------------------------------------------------------------------ *)

(** The first component of the returned triple: the sliced samples, or
    the integer [-1] of the early return at line 74. *)
Inductive waveform : Type :=
  | MinusOne
  | Samples (sound_s : list Q).

Definition is_aeiou (c : ascii) : bool :=
  Ascii.eqb c "a" || Ascii.eqb c "e" || Ascii.eqb c "i"
  || Ascii.eqb c "o" || Ascii.eqb c "u".

(** Lines 116-119. *)
Definition lexical_extension (word : string) (rms_sound : list Q) (end_ : Z)
    : outcome Z :=
  c <- of_option IndexError (last_char word) ;;
  if negb (is_aeiou c) then
    let end' := end_ + 12 in
    Return (if size rms_sound <=? end' then size rms_sound - 1 else end')
  else Return end_.

(** Lines 83-119: the frame pair the function slices at. *)
Definition slice_boundaries (fuel : nat) (rms_sound : list Q) (word : string)
    (threshold threshold_end : Q) (max_pause : Z) : outcome (Z * Z) :=
  match boundary_search fuel rms_sound threshold threshold_end max_pause with
  | None => OutOfFuel
  | Some (start, end_) =>
      end' <- lexical_extension word rms_sound end_ ;;
      Return (start, end')
  end.

(** Lines 121-123, from the frame pair. *)
Definition slice_outputs (audio_file : list Q) (start end_ : Z)
    : outcome (waveform * Q * Q) :=
  let n := Z.of_nat (List.length audio_file) in
  let sound_s := py_slice audio_file (start * HOP_LENGTH) (end_ * HOP_LENGTH + FRAME_SIZE) in
  t_end <- of_option IndexError (t_at n end_) ;;
  t_start <- of_option IndexError (t_at n start) ;;
  Return (Samples sound_s, t_start, (t_end - t_start)%Q).

Definition slice_noise_reduced_audio_files_byt (L : libs) (fuel : nat)
    (audio_file : list Q) (audio_rate : Q) (files_name word : string)
    (threshold threshold_end : Q) (normalize_rms : bool)
    : outcome (waveform * Q * Q) :=
  let rms_sound := analysis_envelope L audio_file audio_rate in
  match rms_sound with
  | [] => Raise ValueError
  | _ =>
      if Qeq_bool (np_max rms_sound - np_min rms_sound) 0
      then Return (MinusOne, (-1)%Q, (-1)%Q)
      else
        let rms_sound := if normalize_rms then normalize rms_sound else rms_sound in
        b <- slice_boundaries fuel rms_sound word threshold threshold_end
               MAX_PAUSE_FRAMES ;;
        slice_outputs audio_file (fst b) (snd b)
  end.

(* ------------------------------------------------------------------ *)
(** ** process_wav_file (lines 126-160)                                  *)
(* ------------------------------------------------------------------ *)

(** [features = [repr(output_file), real_onset, total_duration]], with
    the report's column names; [File_name] holds [output_file]. *)
Record features : Type := {
  File_name : string;
  Reaction_time : pyfloat;
  Total_duration : Q
}.

(** Line 146: [onset - robot_times[word]] once the cell is found.  A
    number minus NaN is NaN; a number minus text raises TypeError. *)
Definition minus_reference (onset : Q) (reference : cell) : outcome pyfloat :=
  match reference with
  | Float (Finite r) => Return (Finite (onset - r)%Q)
  | Float NaN => Return NaN
  | Text _ => Raise TypeError
  end.

(** [x > y] and [x < y] on a float that may be NaN: both are false on
    NaN. *)
Definition float_gtb (x : pyfloat) (y : Q) : bool :=
  match x with
  | Finite a => Qgtb a y
  | NaN => false
  end.

Definition float_ltb (x : pyfloat) (y : Q) : bool :=
  match x with
  | Finite a => Qltb a y
  | NaN => false
  end.

(** Line 148. *)
Definition acceptance (real_onset : pyfloat) (total_duration : Q) : bool :=
  negb (float_gtb real_onset 2 || float_ltb real_onset (-0.5)
        || Qltb total_duration 0.3 || Qgtb total_duration 3).

(** The result is [None] for the bare [return] of line 131 and
    [Some (features, to_include)] for line 160.  The writes of lines
    155-158 ([sf.write], [print]) leave the returned value unchanged and
    are not part of the model. *)
Definition process_wav_file (L : libs) (fuel : nat)
    (input_file output_directory relative_path : string) (robot_times : dict)
    : outcome (option (features * bool)) :=
  if negb (endswith input_file ".wav") then Return None
  else
    audio_data <- of_option LoadError (librosa_load L input_file) ;;
    let sample_rate := LIBROSA_DEFAULT_SR in
    let file_name := input_file in
    word <- of_option AttributeError (re_search_parens file_name) ;;
    r <- slice_noise_reduced_audio_files_byt L fuel audio_data sample_rate
           file_name word THRESHOLD THRESHOLD_END NORMALIZE_RMS ;;
    let '(sliced_audio_file, onset, total_duration) := r in
    reference <- of_option KeyError (dict_get robot_times word) ;;
    real_onset <- minus_reference onset reference ;;
    let to_include := acceptance real_onset total_duration in
    let output_file := path_join output_directory relative_path in
    Return (Some ({| File_name := output_file;
                     Reaction_time := real_onset;
                     Total_duration := total_duration |}, to_include)).

(* ------------------------------------------------------------------ *)
(** ** copy_directory_with_wav_processing (lines 167-198) and main       *)
(* ------------------------------------------------------------------ *)

(** Line 182: the walker's filter. *)
Definition walker_selects (file : string) : bool := endswith (lower file) ".wav".

(** Lines 181-197, the inner [for file in files]; [slice_features] is
    the report so far.  Line 192 unpacks the result of
    [process_wav_file] into two names, which raises TypeError on
    [None].  The counter [count] only drives a progress message and is
    left out. *)
Fixpoint process_files (L : libs) (fuel : nat)
    (source_directory destination_directory root : string)
    (files : list string) (robot_times : dict) (slice_features : list features)
    : outcome (list features) :=
  match files with
  | [] => Return slice_features
  | file :: rest =>
      if walker_selects file then
        let file_path := path_join root file in
        let relative_path := relpath L file_path source_directory in
        r <- process_wav_file L fuel file_path destination_directory
               relative_path robot_times ;;
        match r with
        | None => Raise TypeError
        | Some (file_features, to_include) =>
            process_files L fuel source_directory destination_directory root
              rest robot_times
              (if to_include then slice_features ++ [file_features]
               else slice_features)
        end
      else
        process_files L fuel source_directory destination_directory root
          rest robot_times slice_features
  end.

(** Line 180, the outer [for root, _, files in os.walk(...)]. *)
Fixpoint process_walk (L : libs) (fuel : nat)
    (source_directory destination_directory : string)
    (walk : list (string * list string)) (robot_times : dict)
    (slice_features : list features) : outcome (list features) :=
  match walk with
  | [] => Return slice_features
  | (root, files) :: walk' =>
      slice_features' <- process_files L fuel source_directory
                           destination_directory root files robot_times
                           slice_features ;;
      process_walk L fuel source_directory destination_directory walk'
        robot_times slice_features'
  end.

(** [shutil.copytree] (line 173) only creates directories and is not
    part of the model. *)
Definition copy_directory_with_wav_processing (L : libs) (fuel : nat)
    (source_directory destination_directory : string) (robot_times : dict)
    : outcome (list features) :=
  process_walk L fuel source_directory destination_directory
    (os_walk L source_directory) robot_times [].

(** Line 206: [df.set_index('Word')['Modified Duration'].to_dict()]. *)
Definition to_dict (rows : list (string * cell)) : dict :=
  fold_left (fun d kv => dict_set d (fst kv) (snd kv)) rows [].

(** Line 207: [{unidecode(key).lower(): value for key, value in ...}]. *)
Definition normalize_key (L : libs) (key : string) : string :=
  lower (unidecode L key).

Definition normalized_robot_times (L : libs) (robot_times : dict) : dict :=
  fold_left (fun d kv => dict_set d (normalize_key L (fst kv)) (snd kv))
    robot_times [].

Definition source_directory_path : string := "../exampleNewData".
Definition destination_directory_path : string := "../sliced_exampleFiles".
Definition stimuli_path : string := "../Excels/Stimuli Duration.xlsx".

(** Lines 201-209; the returned report is what line 210 writes. *)
Definition main (L : libs) (fuel : nat) : outcome (list features) :=
  let robot_times := to_dict (read_excel L stimuli_path) in
  let robot_times := normalized_robot_times L robot_times in
  copy_directory_with_wav_processing L fuel source_directory_path
    destination_directory_path robot_times.

(* ------------------------------------------------------------------ *)
(** ** Runs of frames below the threshold                                *)
(* ------------------------------------------------------------------ *)

(** [k] consecutive frames strictly below the threshold, the first one
    at [i], in the direction of the right scan and of the left scan. *)
Definition below_run_right (rms_sound : list Q) (thr : Q) (i k : Z) : Prop :=
  forall j, 0 <= j < k -> (rms_get rms_sound (i + j) < thr)%Q.

Definition below_run_left (rms_sound : list Q) (thr : Q) (i k : Z) : Prop :=
  forall j, 0 <= j < k -> (rms_get rms_sound (i - j) < thr)%Q.

(** The rule as the specification words it: a run that is too long or
    that touches the edge stops the scan "at the frame preceding the
    run", which for the left scan from [i] is frame [i + 1]. *)
Definition stops_before_run_left (rms_sound : list Q) (thr : Q) (max_pause : Z)
    : Prop :=
  forall i k fuel,
    0 <= i < size rms_sound -> 1 <= k ->
    below_run_left rms_sound thr i k ->
    max_pause <= k \/ i - k = -1 ->
    left_loop (S fuel) rms_sound thr max_pause i true = Some (i + 1).

(* ------------------------------------------------------------------ *)
(** ** The specification's wording of the corrected rules                *)
(* ------------------------------------------------------------------ *)

(** "Onset time = start_frame * H / sample_rate; total duration =
    end_frame * H / sample_rate - onset time", with the rate passed to
    the call. *)
Definition times_at_call_rate (L : libs) (fuel : nat) (audio_file : list Q)
    (audio_rate : Q) (files_name word : string) (threshold threshold_end : Q)
    (normalize_rms : bool) : Prop :=
  forall start end_ sound_s onset total_duration,
    slice_boundaries fuel
      (if normalize_rms then normalize (analysis_envelope L audio_file audio_rate)
       else analysis_envelope L audio_file audio_rate)
      word threshold threshold_end MAX_PAUSE_FRAMES = Return (start, end_) ->
    slice_noise_reduced_audio_files_byt L fuel audio_file audio_rate files_name
      word threshold threshold_end normalize_rms
    = Return (sound_s, onset, total_duration) ->
    (onset == inject_Z (start * HOP_LENGTH) / audio_rate)%Q /\
    (total_duration == inject_Z (end_ * HOP_LENGTH) / audio_rate - onset)%Q.

(** The float [x] is a number, equal to [q]. *)
Definition is_number (x : pyfloat) (q : Q) : Prop :=
  match x with
  | Finite a => (a == q)%Q
  | NaN => False
  end.




(** "Corrupt/unreadable audio file: must be caught and converted into a
    per-file skip; one bad file must never abort the whole batch." *)
Definition corrupt_file_is_skipped (L : libs) (fuel : nat)
    (source_directory destination_directory : string) (robot_times : dict)
    : Prop :=
  forall root files file,
    In (root, files) (os_walk L source_directory) -> In file files ->
    walker_selects file = true ->
    librosa_load L (path_join root file) = None ->
    exists report,
      copy_directory_with_wav_processing L fuel source_directory
        destination_directory robot_times = Return report.


(* ------------------------------------------------------------------ *)
(** ** Concrete inputs                                                   *)
(* ------------------------------------------------------------------ *)

(** The envelope of the specification's worked example. *)
Definition worked_envelope : list Q :=
  [0.01; 0.02; 0.5; 0.9; 0.4; 0.02; 0.01; 0.01; 0.6; 0.05]%Q.

(** An envelope with a frame equal to the threshold 0.5 on either side
    of its maximum. *)
Definition plateau_envelope : list Q := [0; 0.5; 1; 0.5; 0]%Q.

(** Speech from the first frame to the last one, with a one-frame dip. *)
Definition full_envelope : list Q := [0.5; 1; 0; 0.5]%Q.

(** Two silent frames, the utterance, two silent frames. *)
Definition quiet_edges_envelope : list Q := [0; 0; 0.5; 1; 0; 0]%Q.

(** A constant envelope. *)
Definition flat_envelope : list Q := [0.2; 0.2; 0.2]%Q.

(** 1280 samples, which [librosa.feature.rms] frames into 6 values. *)
Definition samples_1280 : list Q := repeat 0%Q 1280.

(** 768 samples, framed into 4 values. *)
Definition samples_768 : list Q := repeat 0%Q 768.

(** Libraries answering with fixed data: every file decodes to [audio]
    (or fails, for [None]), every signal has the envelope [env]; the
    words are ASCII, where [unidecode] changes nothing. *)
Definition fixed_libs (audio : option (list Q)) (env : list Q)
    (walk : list (string * list string)) (rows : list (string * cell)) : libs :=
  {| librosa_load := fun _ => audio;
     analysis_envelope := fun _ _ => env;
     unidecode := fun s => s;
     relpath := fun path _ => path;
     os_walk := fun _ => walk;
     read_excel := fun _ => rows |}.

(** The table read from a sheet with the single row [("Casa", 0.5)]:
    its only key is ["casa"]. *)
Definition casa_libs : libs :=
  fixed_libs (Some samples_1280) quiet_edges_envelope [] [("Casa"%string, number 0.5)].

Definition casa_table : dict :=
  normalized_robot_times casa_libs (to_dict (read_excel casa_libs stimuli_path)).

(** Every signal has a constant envelope. *)
Definition flat_libs : libs := fixed_libs (Some samples_1280) flat_envelope [] [].

(** Thirty loud frames between two silent ones, in a clip of 7936
    samples (32 frames): the onset is 0 and, with the reference duration
    0.5, the reaction time is exactly -0.5. *)
Definition long_envelope : list Q := (0 :: repeat 1 30 ++ [0])%Q.


Definition long_features : features :=
  {| File_name := path_join "out" "rec(casa).wav";
     Reaction_time := Finite (frames_to_time 0 - 0.5);
     Total_duration := (frames_to_time 31 - frames_to_time 0)%Q |}.


(** A tree with one recording, which cannot be decoded. *)
Definition corrupt_libs : libs :=
  fixed_libs None quiet_edges_envelope
    [("data"%string, ["rec(casa).wav"%string])] [("casa"%string, number 0.5)].

(** A tree whose first file carries the extension in capitals. *)
Definition capitals_libs : libs :=
  fixed_libs (Some samples_1280) quiet_edges_envelope
    [("data"%string, ["X(casa).WAV"%string; "rec(casa).wav"%string])]
    [("casa"%string, number 0.5)].

(* ------------------------------------------------------------------ *)
(** ** Notions used by the further properties                            *)
(* ------------------------------------------------------------------ *)

(** Every two frames carry the same energy. *)
Definition constant_envelope (rms_sound : list Q) : Prop :=
  forall x y, In x rms_sound -> In y rms_sound -> (x == y)%Q.

(** The test of line 73. *)
Definition degenerate (rms_sound : list Q) : bool :=
  Qeq_bool (np_max rms_sound - np_min rms_sound) 0.

(** The character [c] occurs in [s]. *)
Fixpoint contains (c : ascii) (s : string) : bool :=
  match s with
  | EmptyString => false
  | String x s' => Ascii.eqb x c || contains c s'
  end.

(** The duration on the last row of the sheet whose word is [word]. *)
Definition last_row_value (word : string) (rows : list (string * cell))
    : option cell :=
  option_map snd (find (fun kv => String.eqb (fst kv) word) (rev rows)).

(** The rows the files of one directory contribute to the report: one
    row for each selected file that is processed and included, in the
    order of the files. *)
Definition rows_of_files (L : libs) (fuel : nat)
    (source_directory destination_directory root : string)
    (files : list string) (robot_times : dict) : list features :=
  flat_map
    (fun file =>
       if walker_selects file then
         match process_wav_file L fuel (path_join root file) destination_directory
                 (relpath L (path_join root file) source_directory) robot_times with
         | Return (Some (file_features, true)) => [file_features]
         | _ => []
         end
       else [])
    files.

(** The rows a whole traversal contributes, directory after directory. *)
Definition rows_of_walk (L : libs) (fuel : nat)
    (source_directory destination_directory : string)
    (walk : list (string * list string)) (robot_times : dict) : list features :=
  flat_map
    (fun entry =>
       rows_of_files L fuel source_directory destination_directory (fst entry)
         (snd entry) robot_times)
    walk.

(** The files of a traversal that pass the walker's filter. *)
Definition selected_only (walk : list (string * list string))
    : list (string * list string) :=
  map (fun entry => (fst entry, filter walker_selects (snd entry))) walk.

(** Two directories of recordings; the first also holds a text file. *)
Definition two_dirs_libs : libs :=
  fixed_libs (Some (repeat 0%Q (31 * 256))) long_envelope
    [("data"%string, ["a(casa).wav"%string; "notes.txt"%string]);
     ("data/b"%string, ["b(casa).wav"%string])]
    [("casa"%string, number 0.5)].

(** A loud frame, twenty silent frames, a loud frame. *)
Definition paused_envelope : list Q := (1 :: repeat 0 20 ++ [1])%Q.

(** A clip whose speech starts on the first frame. *)
Definition full_libs : libs := fixed_libs (Some samples_768) full_envelope [] [].

(* ================================================================== *)
(** * Properties                                                         *)
(* ================================================================== *)

(** ** Comparisons *)

Lemma Qgtb_true (x y : Q) : Qgtb x y = true <-> (y < x)%Q.
Proof.
  unfold Qgtb. rewrite negb_true_iff. split; intro H.
  - apply Qnot_le_lt. intro Hle. apply Qle_bool_iff in Hle. congruence.
  - destruct (Qle_bool x y) eqn:E; [|reflexivity].
    apply Qle_bool_iff in E. exfalso. exact (Qlt_not_le _ _ H E).
Qed.

Lemma Qltb_true (x y : Q) : Qltb x y = true <-> (x < y)%Q.
Proof. exact (Qgtb_true y x). Qed.

Lemma Qgtb_false_of_lt (x y : Q) : (x < y)%Q -> Qgtb x y = false.
Proof.
  intro H. destruct (Qgtb x y) eqn:E; [|reflexivity].
  apply Qgtb_true in E. exfalso. exact (Qlt_irrefl _ (Qlt_trans _ _ _ H E)).
Qed.

Lemma Qltb_false_of_gt (x y : Q) : (y < x)%Q -> Qltb x y = false.
Proof. exact (Qgtb_false_of_lt y x). Qed.

Lemma Qgtb_false_of_eq (x y : Q) : (x == y)%Q -> Qgtb x y = false.
Proof.
  intro H. destruct (Qgtb x y) eqn:E; [|reflexivity].
  apply Qgtb_true in E. rewrite H in E. exfalso. exact (Qlt_irrefl _ E).
Qed.

Lemma Qltb_false_of_eq (x y : Q) : (x == y)%Q -> Qltb x y = false.
Proof. intro H. apply Qgtb_false_of_eq. symmetry. exact H. Qed.

(** ** The loops once their guard is false *)

Lemma left_loop_exit fuel rms thr maxp start flag :
  (0 <=? start) && flag = false ->
  left_loop fuel rms thr maxp start flag = Some start.
Proof. intro H. destruct fuel; simpl; rewrite H; reflexivity. Qed.

Lemma right_loop_exit fuel rms thr maxp end_ flag :
  (end_ <? size rms) && flag = false ->
  right_loop fuel rms thr maxp end_ flag = Some end_.
Proof. intro H. destruct fuel; simpl; rewrite H; reflexivity. Qed.

Lemma left_loop_step fuel rms thr maxp start :
  0 <= start ->
  left_loop (S fuel) rms thr maxp start true =
  left_loop fuel rms thr maxp (fst (left_body rms thr maxp start))
    (snd (left_body rms thr maxp start)).
Proof.
  intro H. simpl. replace (0 <=? start) with true by (symmetry; apply Z.leb_le; lia).
  simpl. destruct (left_body rms thr maxp start); reflexivity.
Qed.

Lemma right_loop_step fuel rms thr maxp end_ :
  end_ < size rms ->
  right_loop (S fuel) rms thr maxp end_ true =
  right_loop fuel rms thr maxp (fst (right_body rms thr maxp end_))
    (snd (right_body rms thr maxp end_)).
Proof.
  intro H. simpl. replace (end_ <? size rms) with true by (symmetry; apply Z.ltb_lt; lia).
  simpl. destruct (right_body rms thr maxp end_); reflexivity.
Qed.

(** ** The probes along a run of frames below the threshold *)

Lemma right_probe_skip (m n : nat) rms thr e c :
  (forall j, 0 <= j < Z.of_nat m ->
     e + (c + j) < size rms /\ (rms_get rms (e + (c + j)) < thr)%Q) ->
  right_probe (m + n) rms thr e c = right_probe n rms thr e (c + Z.of_nat m).
Proof.
  revert c. induction m as [|m IH]; intros c H.
  - simpl. rewrite Z.add_0_r. reflexivity.
  - cbn [Nat.add right_probe].
    destruct (H 0 ltac:(lia)) as [Hr Hb]. rewrite Z.add_0_r in Hr, Hb.
    replace (e + c <? size rms) with true by (symmetry; apply Z.ltb_lt; lia).
    apply Qltb_true in Hb. rewrite Hb. cbn [andb].
    rewrite IH.
    + f_equal. lia.
    + intros j Hj. replace (c + 1 + j) with (c + (j + 1)) by lia.
      apply H. lia.
Qed.

Lemma left_probe_skip (m n : nat) rms thr s c :
  (forall j, 0 <= j < Z.of_nat m ->
     0 <= s - (c + j) /\ (rms_get rms (s - (c + j)) < thr)%Q) ->
  left_probe (m + n) rms thr s c = left_probe n rms thr s (c + Z.of_nat m).
Proof.
  revert c. induction m as [|m IH]; intros c H.
  - simpl. rewrite Z.add_0_r. reflexivity.
  - cbn [Nat.add left_probe].
    destruct (H 0 ltac:(lia)) as [Hr Hb]. rewrite Z.add_0_r in Hr, Hb.
    replace (0 <=? s - c) with true by (symmetry; apply Z.leb_le; lia).
    apply Qltb_true in Hb. rewrite Hb. cbn [andb].
    rewrite IH.
    + f_equal. lia.
    + intros j Hj. replace (c + 1 + j) with (c + (j + 1)) by lia.
      apply H. lia.
Qed.

(** The probe stops at once on a frame that is not below the threshold. *)
Lemma right_probe_halt n rms thr e c :
  (e + c <? size rms) && Qltb (rms_get rms (e + c)) thr = false ->
  right_probe n rms thr e c = c.
Proof. intro H. destruct n; cbn [right_probe]; [|rewrite H]; reflexivity. Qed.

Lemma left_probe_halt n rms thr s c :
  (0 <=? s - c) && Qltb (rms_get rms (s - c)) thr = false ->
  left_probe n rms thr s c = c.
Proof. intro H. destruct n; cbn [left_probe]; [|rewrite H]; reflexivity. Qed.

(** ** One iteration on a run: bridge it, or stop on its first frame *)

Lemma right_body_bridge rms thr maxp e k :
  1 <= k < maxp -> e + k < size rms ->
  below_run_right rms thr e k ->
  Qltb (rms_get rms (e + k)) thr = false ->
  right_body rms thr maxp e = (e + k, true).
Proof.
  intros Hk He Hrun Hnext. unfold right_body.
  rewrite Qgtb_false_of_lt
    by (specialize (Hrun 0 ltac:(lia)); rewrite Z.add_0_r in Hrun; exact Hrun).
  replace (Z.to_nat maxp) with (Z.to_nat k + Z.to_nat (maxp - k))%nat by lia.
  rewrite right_probe_skip
    by (intros j Hj; rewrite Z.add_0_l; split; [lia | apply Hrun; lia]).
  rewrite Z2Nat.id by lia. rewrite Z.add_0_l.
  rewrite right_probe_halt by (rewrite Hnext; apply andb_false_r).
  replace (e + k =? size rms) with false by (symmetry; apply Z.eqb_neq; lia).
  replace (k =? maxp) with false by (symmetry; apply Z.eqb_neq; lia).
  reflexivity.
Qed.

Lemma right_body_stop rms thr maxp e k :
  0 <= maxp -> 1 <= k -> e + k <= size rms ->
  below_run_right rms thr e k ->
  maxp <= k \/ e + k = size rms ->
  right_body rms thr maxp e = (e, false).
Proof.
  intros Hm Hk He Hrun Hcase. unfold right_body.
  rewrite Qgtb_false_of_lt
    by (specialize (Hrun 0 ltac:(lia)); rewrite Z.add_0_r in Hrun; exact Hrun).
  destruct (Z_le_gt_dec maxp k) as [Hle|Hgt].
  - replace (Z.to_nat maxp) with (Z.to_nat maxp + 0)%nat by lia.
    rewrite right_probe_skip
      by (intros j Hj; rewrite Z.add_0_l; split; [lia | apply Hrun; lia]).
    cbn [right_probe]. rewrite Z2Nat.id by lia. rewrite Z.add_0_l.
    rewrite Z.eqb_refl, orb_true_r. reflexivity.
  - assert (Hedge : e + k = size rms) by (destruct Hcase; [lia | assumption]).
    replace (Z.to_nat maxp) with (Z.to_nat k + Z.to_nat (maxp - k))%nat by lia.
    rewrite right_probe_skip
      by (intros j Hj; rewrite Z.add_0_l; split; [lia | apply Hrun; lia]).
    rewrite Z2Nat.id by lia. rewrite Z.add_0_l.
    rewrite right_probe_halt
      by (replace (e + k <? size rms) with false
            by (symmetry; apply Z.ltb_ge; lia); reflexivity).
    replace (e + k =? size rms) with true by (symmetry; apply Z.eqb_eq; lia).
    reflexivity.
Qed.

Lemma left_body_bridge rms thr maxp s k :
  1 <= k < maxp -> 0 <= s - k ->
  below_run_left rms thr s k ->
  Qltb (rms_get rms (s - k)) thr = false ->
  left_body rms thr maxp s = (s - k, true).
Proof.
  intros Hk Hs Hrun Hnext. unfold left_body.
  rewrite Qgtb_false_of_lt
    by (specialize (Hrun 0 ltac:(lia)); rewrite Z.sub_0_r in Hrun; exact Hrun).
  replace (Z.to_nat maxp) with (Z.to_nat k + Z.to_nat (maxp - k))%nat by lia.
  rewrite left_probe_skip
    by (intros j Hj; rewrite Z.add_0_l; split; [lia | apply Hrun; lia]).
  rewrite Z2Nat.id by lia. rewrite Z.add_0_l.
  rewrite left_probe_halt by (rewrite Hnext; apply andb_false_r).
  replace (s - k =? -1) with false by (symmetry; apply Z.eqb_neq; lia).
  replace (k =? maxp) with false by (symmetry; apply Z.eqb_neq; lia).
  reflexivity.
Qed.

Lemma left_body_stop rms thr maxp s k :
  0 <= maxp -> 1 <= k -> -1 <= s - k ->
  below_run_left rms thr s k ->
  maxp <= k \/ s - k = -1 ->
  left_body rms thr maxp s = (s, false).
Proof.
  intros Hm Hk Hs Hrun Hcase. unfold left_body.
  rewrite Qgtb_false_of_lt
    by (specialize (Hrun 0 ltac:(lia)); rewrite Z.sub_0_r in Hrun; exact Hrun).
  destruct (Z_le_gt_dec maxp k) as [Hle|Hgt].
  - replace (Z.to_nat maxp) with (Z.to_nat maxp + 0)%nat by lia.
    rewrite left_probe_skip
      by (intros j Hj; rewrite Z.add_0_l; split; [lia | apply Hrun; lia]).
    cbn [left_probe]. rewrite Z2Nat.id by lia. rewrite Z.add_0_l.
    rewrite Z.eqb_refl, orb_true_r. reflexivity.
  - assert (Hedge : s - k = -1) by (destruct Hcase; [lia | assumption]).
    replace (Z.to_nat maxp) with (Z.to_nat k + Z.to_nat (maxp - k))%nat by lia.
    rewrite left_probe_skip
      by (intros j Hj; rewrite Z.add_0_l; split; [lia | apply Hrun; lia]).
    rewrite Z2Nat.id by lia. rewrite Z.add_0_l.
    rewrite left_probe_halt
      by (replace (0 <=? s - k) with false
            by (symmetry; apply Z.leb_gt; lia); reflexivity).
    replace (s - k =? -1) with true by (symmetry; apply Z.eqb_eq; lia).
    reflexivity.
Qed.

(** ** A frame equal to the threshold *)

(** Such a frame is neither [> threshold] (line 89) nor [< threshold]
    (line 93): the probe counts no frame and line 98 subtracts 0. *)
Lemma left_body_equal rms thr maxp i :
  0 <= i -> maxp <> 0 -> (rms_get rms i == thr)%Q ->
  left_body rms thr maxp i = (i, true).
Proof.
  intros Hi Hm Heq. unfold left_body.
  rewrite (Qgtb_false_of_eq _ _ Heq).
  rewrite left_probe_halt
    by (rewrite Z.sub_0_r, (Qltb_false_of_eq _ _ Heq); apply andb_false_r).
  rewrite Z.sub_0_r.
  replace (i =? -1) with false by (symmetry; apply Z.eqb_neq; lia).
  replace (0 =? maxp) with false by (symmetry; apply Z.eqb_neq; lia).
  reflexivity.
Qed.

Lemma right_body_equal rms thr maxp i :
  i < size rms -> maxp <> 0 -> (rms_get rms i == thr)%Q ->
  right_body rms thr maxp i = (i, true).
Proof.
  intros Hi Hm Heq. unfold right_body.
  rewrite (Qgtb_false_of_eq _ _ Heq).
  rewrite right_probe_halt
    by (rewrite Z.add_0_r, (Qltb_false_of_eq _ _ Heq); apply andb_false_r).
  rewrite Z.add_0_r.
  replace (i =? size rms) with false by (symmetry; apply Z.eqb_neq; lia).
  replace (0 =? maxp) with false by (symmetry; apply Z.eqb_neq; lia).
  reflexivity.
Qed.

Lemma left_loop_stuck rms thr maxp i :
  0 <= i -> maxp <> 0 -> (rms_get rms i == thr)%Q ->
  forall fuel, left_loop fuel rms thr maxp i true = None.
Proof.
  intros Hi Hm Heq fuel. induction fuel as [|fuel IH].
  - simpl. replace (0 <=? i) with true by (symmetry; apply Z.leb_le; lia).
    reflexivity.
  - rewrite left_loop_step by assumption.
    rewrite left_body_equal by assumption. exact IH.
Qed.

Lemma right_loop_stuck rms thr maxp i :
  i < size rms -> maxp <> 0 -> (rms_get rms i == thr)%Q ->
  forall fuel, right_loop fuel rms thr maxp i true = None.
Proof.
  intros Hi Hm Heq fuel. induction fuel as [|fuel IH].
  - simpl. replace (i <? size rms) with true by (symmetry; apply Z.ltb_lt; lia).
    reflexivity.
  - rewrite right_loop_step by assumption.
    rewrite right_body_equal by assumption. exact IH.
Qed.

(** ** Termination when no frame equals the threshold *)

Lemma left_probe_bounds n rms thr s c :
  -1 <= s - c ->
  c <= left_probe n rms thr s c /\ -1 <= s - left_probe n rms thr s c.
Proof.
  revert c. induction n as [|n IH]; intros c Hc; cbn [left_probe]; [lia|].
  destruct ((0 <=? s - c) && Qltb (rms_get rms (s - c)) thr) eqn:E; [|lia].
  apply andb_true_iff in E. destruct E as [E _]. apply Z.leb_le in E.
  destruct (IH (c + 1) ltac:(lia)). lia.
Qed.

Lemma right_probe_bounds n rms thr e c :
  e + c <= size rms ->
  c <= right_probe n rms thr e c /\ e + right_probe n rms thr e c <= size rms.
Proof.
  revert c. induction n as [|n IH]; intros c Hc; cbn [right_probe]; [lia|].
  destruct ((e + c <? size rms) && Qltb (rms_get rms (e + c)) thr) eqn:E; [|lia].
  apply andb_true_iff in E. destruct E as [E _]. apply Z.ltb_lt in E.
  destruct (IH (c + 1) ltac:(lia)). lia.
Qed.

Lemma not_gt_not_eq_lt (x thr : Q) :
  Qgtb x thr = false -> ~ (x == thr)%Q -> Qltb x thr = true.
Proof.
  intros Hgt Hne. apply Qltb_true.
  destruct (Q_dec x thr) as [[Hlt|Hgt']|Heq].
  - exact Hlt.
  - apply Qgtb_true in Hgt'. congruence.
  - contradiction.
Qed.

(** One iteration either clears the flag or moves strictly outwards,
    by at most one frame past the edge. *)
Lemma left_body_progress rms thr maxp s :
  0 <= maxp -> 0 <= s -> ~ (rms_get rms s == thr)%Q ->
  snd (left_body rms thr maxp s) = false \/
  -1 <= fst (left_body rms thr maxp s) < s.
Proof.
  intros Hm Hs Hne. unfold left_body.
  destruct (Qgtb (rms_get rms s) thr) eqn:Hgt; [right; simpl; lia|].
  pose proof (not_gt_not_eq_lt _ _ Hgt Hne) as Hlt.
  set (count := left_probe (Z.to_nat maxp) rms thr s 0).
  destruct ((s - count =? -1) || (count =? maxp)) eqn:E; [left; reflexivity|].
  right. cbn [fst]. apply orb_false_iff in E. destruct E as [_ E].
  apply Z.eqb_neq in E.
  assert (1 <= count /\ -1 <= s - count); [|lia].
  subst count. destruct (Z.to_nat maxp) as [|n] eqn:En; [cbn [left_probe] in E; lia|].
  cbn [left_probe]. rewrite Z.sub_0_r, Hlt.
  replace (0 <=? s) with true by (symmetry; apply Z.leb_le; lia). cbn [andb].
  apply left_probe_bounds. lia.
Qed.

Lemma right_body_progress rms thr maxp e :
  0 <= maxp -> e < size rms -> ~ (rms_get rms e == thr)%Q ->
  snd (right_body rms thr maxp e) = false \/
  e < fst (right_body rms thr maxp e) <= size rms.
Proof.
  intros Hm He Hne. unfold right_body.
  destruct (Qgtb (rms_get rms e) thr) eqn:Hgt; [right; simpl; lia|].
  pose proof (not_gt_not_eq_lt _ _ Hgt Hne) as Hlt.
  set (count := right_probe (Z.to_nat maxp) rms thr e 0).
  destruct ((e + count =? size rms) || (count =? maxp)) eqn:E; [left; reflexivity|].
  right. cbn [fst]. apply orb_false_iff in E. destruct E as [_ E].
  apply Z.eqb_neq in E.
  assert (1 <= count /\ e + count <= size rms); [|lia].
  subst count. destruct (Z.to_nat maxp) as [|n] eqn:En; [cbn [right_probe] in E; lia|].
  cbn [right_probe]. rewrite Z.add_0_r, Hlt.
  replace (e <? size rms) with true by (symmetry; apply Z.ltb_lt; lia). cbn [andb].
  apply right_probe_bounds. lia.
Qed.

Section Termination.

Variables (rms : list Q) (thr : Q) (maxp : Z).
Hypothesis cap_nonneg : 0 <= maxp.
Hypothesis no_frame_on_threshold : forall i, ~ (rms_get rms i == thr)%Q.

Lemma left_loop_terminates (n : nat) :
  forall start flag, start + 1 <= Z.of_nat n ->
  exists r, forall fuel, (n <= fuel)%nat ->
    left_loop fuel rms thr maxp start flag = Some r.
Proof.
  induction n as [|n IH]; intros start flag Hn.
  - exists start. intros fuel _. apply left_loop_exit.
    replace (0 <=? start) with false by (symmetry; apply Z.leb_gt; lia).
    reflexivity.
  - destruct ((0 <=? start) && flag) eqn:G.
    + apply andb_true_iff in G. destruct G as [G ->]. apply Z.leb_le in G.
      destruct (left_body_progress rms thr maxp start cap_nonneg G
                  (no_frame_on_threshold start)) as [Hf|Hs].
      * exists (fst (left_body rms thr maxp start)).
        intros [|fuel] Hfuel; [lia|].
        rewrite left_loop_step by assumption. rewrite Hf.
        apply left_loop_exit, andb_false_r.
      * destruct (IH (fst (left_body rms thr maxp start))
                     (snd (left_body rms thr maxp start)) ltac:(lia)) as [r Hr].
        exists r. intros [|fuel] Hfuel; [lia|].
        rewrite left_loop_step by assumption. apply Hr. lia.
    + exists start. intros fuel _. apply left_loop_exit. exact G.
Qed.

Lemma right_loop_terminates (n : nat) :
  forall end_ flag, size rms - end_ <= Z.of_nat n ->
  exists r, forall fuel, (n <= fuel)%nat ->
    right_loop fuel rms thr maxp end_ flag = Some r.
Proof.
  induction n as [|n IH]; intros end_ flag Hn.
  - exists end_. intros fuel _. apply right_loop_exit.
    replace (end_ <? size rms) with false by (symmetry; apply Z.ltb_ge; lia).
    reflexivity.
  - destruct ((end_ <? size rms) && flag) eqn:G.
    + apply andb_true_iff in G. destruct G as [G ->]. apply Z.ltb_lt in G.
      destruct (right_body_progress rms thr maxp end_ cap_nonneg G
                  (no_frame_on_threshold end_)) as [Hf|Hs].
      * exists (fst (right_body rms thr maxp end_)).
        intros [|fuel] Hfuel; [lia|].
        rewrite right_loop_step by assumption. rewrite Hf.
        apply right_loop_exit, andb_false_r.
      * destruct (IH (fst (right_body rms thr maxp end_))
                     (snd (right_body rms thr maxp end_)) ltac:(lia)) as [r Hr].
        exists r. intros [|fuel] Hfuel; [lia|].
        rewrite right_loop_step by assumption. apply Hr. lia.
    + exists end_. intros fuel _. apply right_loop_exit. exact G.
Qed.

End Termination.

Lemma np_argmax_range (rms : list Q) : 0 <= np_argmax rms <= size rms.
Proof.
  unfold np_argmax, size. destruct rms as [|x l]; [simpl; lia|].
  assert (G : forall l bi b i, 0 <= bi < i ->
             0 <= argmax_from bi b i l < i + Z.of_nat (List.length l)).
  { clear. induction l as [|y l IH]; intros bi b i Hb; cbn [argmax_from List.length].
    - lia.
    - destruct (Qltb b y).
      + specialize (IH i y (i + 1) ltac:(lia)). lia.
      + specialize (IH bi b (i + 1) ltac:(lia)). lia. }
  specialize (G l 0 x 1 ltac:(lia)). cbn [List.length]. lia.
Qed.

(** Away from the threshold both scans end within [size + 1] iterations. *)
Lemma boundary_search_terminates rms thr thr_end maxp :
  0 <= maxp ->
  (forall i, ~ (rms_get rms i == thr)%Q) ->
  (forall i, ~ (rms_get rms i == thr_end)%Q) ->
  exists b, forall fuel, (S (List.length rms) <= fuel)%nat ->
    boundary_search fuel rms thr thr_end maxp = Some b.
Proof.
  intros Hm Hl Hr. pose proof (np_argmax_range rms) as Hmid.
  destruct (left_loop_terminates rms thr maxp Hm Hl (S (List.length rms))
              (np_argmax rms) true ltac:(unfold size in *; lia)) as [s Hs].
  destruct (right_loop_terminates rms thr_end maxp Hm Hr (S (List.length rms))
              (np_argmax rms) true ltac:(unfold size in *; lia)) as [e He].
  exists (s, e). intros fuel Hfuel. unfold boundary_search.
  rewrite Hs, He by assumption. reflexivity.
Qed.

(** ** How far the scans can go *)

Lemma left_body_range rms thr maxp s :
  0 <= s -> -1 <= fst (left_body rms thr maxp s) <= s.
Proof.
  intro Hs. unfold left_body.
  destruct (Qgtb (rms_get rms s) thr); [simpl; lia|].
  destruct (left_probe_bounds (Z.to_nat maxp) rms thr s 0 ltac:(lia)).
  destruct ((s - left_probe (Z.to_nat maxp) rms thr s 0 =? -1)
            || (left_probe (Z.to_nat maxp) rms thr s 0 =? maxp)); simpl; lia.
Qed.

Lemma right_body_range rms thr maxp e :
  e < size rms -> e <= fst (right_body rms thr maxp e) <= size rms.
Proof.
  intro He. unfold right_body.
  destruct (Qgtb (rms_get rms e) thr); [simpl; lia|].
  destruct (right_probe_bounds (Z.to_nat maxp) rms thr e 0 ltac:(lia)).
  destruct ((e + right_probe (Z.to_nat maxp) rms thr e 0 =? size rms)
            || (right_probe (Z.to_nat maxp) rms thr e 0 =? maxp)); simpl; lia.
Qed.

Lemma left_loop_range fuel rms thr maxp :
  forall s flag r,
    -1 <= s -> left_loop fuel rms thr maxp s flag = Some r -> -1 <= r <= s.
Proof.
  induction fuel as [|fuel IH]; intros s flag r Hs H.
  - simpl in H. destruct ((0 <=? s) && flag); [discriminate H|].
    injection H as <-. lia.
  - destruct ((0 <=? s) && flag) eqn:G.
    + apply andb_true_iff in G. destruct G as [G ->]. apply Z.leb_le in G.
      rewrite left_loop_step in H by assumption.
      pose proof (left_body_range rms thr maxp s G) as Hb.
      apply IH in H; lia.
    + rewrite left_loop_exit in H by assumption. injection H as <-. lia.
Qed.

Lemma right_loop_range fuel rms thr maxp :
  forall e flag r,
    e <= size rms -> right_loop fuel rms thr maxp e flag = Some r ->
    e <= r <= size rms.
Proof.
  induction fuel as [|fuel IH]; intros e flag r He H.
  - simpl in H. destruct ((e <? size rms) && flag); [discriminate H|].
    injection H as <-. lia.
  - destruct ((e <? size rms) && flag) eqn:G.
    + apply andb_true_iff in G. destruct G as [G ->]. apply Z.ltb_lt in G.
      rewrite right_loop_step in H by assumption.
      pose proof (right_body_range rms thr maxp e G) as Hb.
      apply IH in H; lia.
    + rewrite right_loop_exit in H by assumption. injection H as <-. lia.
Qed.

(** What the search does guarantee: the pair encloses the maximum, with
    the start no lower than -1 and the end no higher than the length. *)
Lemma boundary_search_range fuel rms thr thr_end maxp start end_ :
  boundary_search fuel rms thr thr_end maxp = Some (start, end_) ->
  -1 <= start <= np_argmax rms /\ np_argmax rms <= end_ <= size rms.
Proof.
  unfold boundary_search. intro H. pose proof (np_argmax_range rms) as Hmid.
  destruct (left_loop fuel rms thr maxp (np_argmax rms) true) as [s|] eqn:Hl;
    [|discriminate H].
  destruct (right_loop fuel rms thr_end maxp (np_argmax rms) true) as [e|] eqn:Hr;
    [|discriminate H].
  injection H as <- <-.
  apply left_loop_range in Hl; [|lia]. apply right_loop_range in Hr; [|lia].
  lia.
Qed.

(** ** Running the slicing function *)

(** Past the validity test the function is its frame pair followed by
    the conversion of lines 121-123. *)
Lemma slice_runs L fuel audio rate fname word thr thr_end (norm : bool) b :
  analysis_envelope L audio rate <> [] ->
  Qeq_bool (np_max (analysis_envelope L audio rate)
            - np_min (analysis_envelope L audio rate)) 0 = false ->
  slice_boundaries fuel
    (if norm then normalize (analysis_envelope L audio rate)
     else analysis_envelope L audio rate) word thr thr_end MAX_PAUSE_FRAMES
  = Return b ->
  slice_noise_reduced_audio_files_byt L fuel audio rate fname word thr thr_end norm
  = slice_outputs audio (fst b) (snd b).
Proof.
  intros Hne Hdeg Hb. unfold slice_noise_reduced_audio_files_byt.
  destruct (analysis_envelope L audio rate) as [|x l] eqn:E; [contradiction|].
  rewrite Hdeg, Hb. reflexivity.
Qed.

(** The function never returns when a scan never ends. *)
Lemma slice_diverges L fuel audio rate fname word thr thr_end (norm : bool) :
  analysis_envelope L audio rate <> [] ->
  Qeq_bool (np_max (analysis_envelope L audio rate)
            - np_min (analysis_envelope L audio rate)) 0 = false ->
  boundary_search fuel
    (if norm then normalize (analysis_envelope L audio rate)
     else analysis_envelope L audio rate) thr thr_end MAX_PAUSE_FRAMES = None ->
  slice_noise_reduced_audio_files_byt L fuel audio rate fname word thr thr_end norm
  = OutOfFuel.
Proof.
  intros Hne Hdeg Hsearch. unfold slice_noise_reduced_audio_files_byt.
  destruct (analysis_envelope L audio rate) as [|x l] eqn:E; [contradiction|].
  rewrite Hdeg. unfold slice_boundaries. rewrite Hsearch. reflexivity.
Qed.

(** One expanding step followed by a frame on the threshold. *)
Lemma left_loop_stuck_after_step rms thr maxp start :
  0 <= start -> 1 <= fst (left_body rms thr maxp start) ->
  snd (left_body rms thr maxp start) = true -> maxp <> 0 ->
  (rms_get rms (fst (left_body rms thr maxp start)) == thr)%Q ->
  forall fuel, left_loop fuel rms thr maxp start true = None.
Proof.
  intros Hs Hnext Hflag Hm Heq [|fuel].
  - simpl. replace (0 <=? start) with true by (symmetry; apply Z.leb_le; lia).
    reflexivity.
  - rewrite left_loop_step by assumption. rewrite Hflag.
    apply left_loop_stuck; [lia | assumption | assumption].
Qed.

(** C1 (the code does not do what the claim says).  On the envelope
    [0, 0.5, 1, 0.5, 0] with both thresholds 0.5 and the pause cap 20,
    neither scan reaches its end for any number of iterations: the left
    scan stays on frame 1 and the right scan on frame 3, whose energy
    equals the threshold, and the slicing function called on a signal
    with that envelope never returns. *)
Theorem C1_scans_never_end_on_threshold_frame :
  forall fuel,
    left_loop fuel plateau_envelope 0.5 MAX_PAUSE_FRAMES
      (np_argmax plateau_envelope) true = None
    /\ right_loop fuel plateau_envelope 0.5 MAX_PAUSE_FRAMES
         (np_argmax plateau_envelope) true = None
    /\ slice_noise_reduced_audio_files_byt
         (fixed_libs None plateau_envelope [] []) fuel (repeat 0%Q 1024)
         22050 "rec(casa).wav" "casa" 0.5 0.5 NORMALIZE_RMS = OutOfFuel.
Proof.
  intro fuel. split; [|split].
  - apply left_loop_stuck_after_step.
    + vm_compute. discriminate.
    + vm_compute. discriminate.
    + vm_compute. reflexivity.
    + discriminate.
    + vm_compute. reflexivity.
  - destruct fuel as [|fuel]; [vm_compute; reflexivity|].
    rewrite right_loop_step by (vm_compute; reflexivity).
    replace (right_body plateau_envelope 0.5 MAX_PAUSE_FRAMES
               (np_argmax plateau_envelope)) with (3, true)
      by (vm_compute; reflexivity).
    apply right_loop_stuck.
    + vm_compute. reflexivity.
    + discriminate.
    + vm_compute. reflexivity.
  - apply slice_diverges.
    + discriminate.
    + vm_compute. reflexivity.
    + unfold boundary_search.
      rewrite left_loop_stuck_after_step; [reflexivity | | | | |].
      * vm_compute. discriminate.
      * vm_compute. discriminate.
      * vm_compute. reflexivity.
      * discriminate.
      * vm_compute. reflexivity.
Qed.

(** Run one iteration of a scan on concrete data. *)
Ltac left_iteration :=
  rewrite left_loop_step by (vm_compute; discriminate);
  match goal with
  | |- context [left_body ?r ?t ?m ?s] =>
      let v := eval vm_compute in (left_body r t m s) in
      replace (left_body r t m s) with v by (vm_compute; reflexivity)
  end;
  cbn [fst snd].

Ltac right_iteration :=
  rewrite right_loop_step by (vm_compute; reflexivity);
  match goal with
  | |- context [right_body ?r ?t ?m ?s] =>
      let v := eval vm_compute in (right_body r t m s) in
      replace (right_body r t m s) with v by (vm_compute; reflexivity)
  end;
  cbn [fst snd].

(** C2 (the code does not do what the claim says).  On the worked
    envelope with both thresholds 0.015 and the cap 20 the search
    returns [(0, 10)], not [(0, 9)]: the last frame, 0.05, is above the
    threshold, so the right scan steps to index 10, the length of the
    envelope.  Only the end extension of a word ending in a consonant
    brings the end back to 9; for a word ending in a vowel it stays 10. *)
Theorem C2_worked_example_search :
  forall fuel,
    np_argmax worked_envelope = 3
    /\ boundary_search (10 + fuel) worked_envelope 0.015 0.015 MAX_PAUSE_FRAMES
       = Some (0, 10)
    /\ slice_boundaries (10 + fuel) worked_envelope "casa" 0.015 0.015
         MAX_PAUSE_FRAMES = Return (0, 10)
    /\ slice_boundaries (10 + fuel) worked_envelope "pan" 0.015 0.015
         MAX_PAUSE_FRAMES = Return (0, 9).
Proof.
  intro fuel.
  assert (H : boundary_search (10 + fuel) worked_envelope 0.015 0.015
                MAX_PAUSE_FRAMES = Some (0, 10)).
  { unfold boundary_search.
    replace (left_loop (10 + fuel) worked_envelope 0.015 MAX_PAUSE_FRAMES
               (np_argmax worked_envelope) true) with (Some 0).
    2:{ symmetry. cbn [Nat.add]. do 4 left_iteration.
        apply left_loop_exit. vm_compute. reflexivity. }
    replace (right_loop (10 + fuel) worked_envelope 0.015 MAX_PAUSE_FRAMES
               (np_argmax worked_envelope) true) with (Some 10).
    2:{ symmetry. cbn [Nat.add]. do 6 right_iteration.
        apply right_loop_exit. vm_compute. reflexivity. }
    reflexivity. }
  split; [reflexivity|]. split; [exact H|].
  unfold slice_boundaries. rewrite H. split; reflexivity.
Qed.

(** C3 (the code does not do what the claim says).  On the envelope
    [0.5, 1, 0, 0.5] of length 4, with the default thresholds and a word
    ending in a vowel, the frame pair is [(-1, 4)]: the left scan steps
    below index 0 and the right scan to the length of the envelope, and
    nothing clamps either.  On a 768-sample clip with that envelope the
    onset is then read at [t[-1]], the time entry of the last sample
    (index 767), and the total duration is negative. *)
Theorem C3_boundaries_leave_the_envelope :
  forall fuel,
    size full_envelope = 4
    /\ slice_boundaries (10 + fuel) full_envelope "casa" THRESHOLD THRESHOLD_END
         MAX_PAUSE_FRAMES = Return (-1, 4)
    /\ slice_boundaries (10 + fuel) (normalize full_envelope) "casa" THRESHOLD
         THRESHOLD_END MAX_PAUSE_FRAMES = Return (-1, 4)
    /\ slice_noise_reduced_audio_files_byt (fixed_libs None full_envelope [] [])
         (10 + fuel) samples_768 LIBROSA_DEFAULT_SR "rec(casa).wav" "casa"
         THRESHOLD THRESHOLD_END NORMALIZE_RMS
       = Return (Samples (py_slice samples_768 (-256) 2048),
                 frames_to_time 767,
                 (frames_to_time 4 - frames_to_time 767)%Q).
Proof.
  intro fuel. split; [reflexivity|].
  assert (H : forall rms, rms = full_envelope \/ rms = normalize full_envelope ->
            boundary_search (10 + fuel) rms THRESHOLD THRESHOLD_END
              MAX_PAUSE_FRAMES = Some (-1, 4)).
  { intros rms Hrms. unfold boundary_search.
    replace (left_loop (10 + fuel) rms THRESHOLD MAX_PAUSE_FRAMES
               (np_argmax rms) true) with (Some (-1)).
    2:{ symmetry. cbn [Nat.add]. destruct Hrms; subst rms;
        do 2 left_iteration; apply left_loop_exit; vm_compute; reflexivity. }
    replace (right_loop (10 + fuel) rms THRESHOLD_END MAX_PAUSE_FRAMES
               (np_argmax rms) true) with (Some 4).
    2:{ symmetry. cbn [Nat.add]. destruct Hrms; subst rms;
        do 3 right_iteration; apply right_loop_exit; vm_compute; reflexivity. }
    reflexivity. }
  assert (Hn : slice_boundaries (10 + fuel) (normalize full_envelope) "casa"
                 THRESHOLD THRESHOLD_END MAX_PAUSE_FRAMES = Return (-1, 4)).
  { unfold slice_boundaries.
    rewrite (H (normalize full_envelope)) by (right; reflexivity). reflexivity. }
  split; [|split; [exact Hn|]].
  - unfold slice_boundaries.
    rewrite (H full_envelope) by (left; reflexivity). reflexivity.
  - rewrite (slice_runs (fixed_libs None full_envelope [] []) (10 + fuel)
               samples_768 LIBROSA_DEFAULT_SR "rec(casa).wav" "casa" THRESHOLD
               THRESHOLD_END NORMALIZE_RMS (-1, 4)).
    + vm_compute. reflexivity.
    + discriminate.
    + vm_compute. reflexivity.
    + exact Hn.
Qed.

(** C4 (as amended).  When a scan stands on the first frame [i] of a run
    of [k >= 1] frames below its threshold:
    - if the run is shorter than the cap and a frame above the threshold
      follows it inside the envelope, the iteration skips the whole run
      and the scan goes on expanding from the frame after it;
    - if the run has the length of the cap or more, or reaches the edge
      of the envelope, the scan ends with its boundary on [i] itself,
      the first frame of the run. *)
Theorem C4_pause_bridged_or_stop_on_first_frame :
  forall rms thr maxp i k fuel,
    0 <= maxp -> 1 <= k ->
    (0 <= i -> below_run_right rms thr i k ->
       (k < maxp -> i + k < size rms -> (thr < rms_get rms (i + k))%Q ->
          right_body rms thr maxp i = (i + k, true) /\
          right_loop (S (S fuel)) rms thr maxp i true
          = right_loop fuel rms thr maxp (i + k + 1) true)
       /\ (i + k <= size rms -> maxp <= k \/ i + k = size rms ->
             right_loop (S fuel) rms thr maxp i true = Some i))
    /\ (i < size rms -> below_run_left rms thr i k ->
          (k < maxp -> 0 <= i - k -> (thr < rms_get rms (i - k))%Q ->
             left_body rms thr maxp i = (i - k, true) /\
             left_loop (S (S fuel)) rms thr maxp i true
             = left_loop fuel rms thr maxp (i - k - 1) true)
          /\ (-1 <= i - k -> maxp <= k \/ i - k = -1 ->
                left_loop (S fuel) rms thr maxp i true = Some i)).
Proof.
  intros rms thr maxp i k fuel Hm Hk. split.
  - intros Hi Hrun. split.
    + intros Hlt Hin Habove.
      assert (Hb : right_body rms thr maxp i = (i + k, true))
        by (apply right_body_bridge;
            [lia | assumption | assumption | apply Qltb_false_of_gt; assumption]).
      split; [exact Hb|].
      rewrite right_loop_step by lia. rewrite Hb. cbn [fst snd].
      rewrite right_loop_step by lia. unfold right_body.
      apply Qgtb_true in Habove. rewrite Habove. reflexivity.
    + intros Hin Hcase.
      rewrite right_loop_step by lia.
      rewrite (right_body_stop rms thr maxp i k) by assumption.
      apply right_loop_exit, andb_false_r.
  - intros Hi Hrun. split.
    + intros Hlt Hin Habove.
      assert (Hb : left_body rms thr maxp i = (i - k, true))
        by (apply left_body_bridge;
            [lia | assumption | assumption | apply Qltb_false_of_gt; assumption]).
      split; [exact Hb|].
      rewrite left_loop_step by lia. rewrite Hb. cbn [fst snd].
      rewrite left_loop_step by lia. unfold left_body.
      apply Qgtb_true in Habove. rewrite Habove. reflexivity.
    + intros Hin Hcase.
      rewrite left_loop_step by lia.
      rewrite (left_body_stop rms thr maxp i k) by assumption.
      apply left_loop_exit, andb_false_r.
Qed.

(** On the worked envelope the right scan bridges the dip at frames 6-7
    and the left scan, meeting frame 0 at the edge, ends on frame 0. *)
Lemma C4_witness :
  right_loop 2 worked_envelope 0.015 MAX_PAUSE_FRAMES 6 true
  = right_loop 0 worked_envelope 0.015 MAX_PAUSE_FRAMES 9 true
  /\ left_loop 1 worked_envelope 0.015 MAX_PAUSE_FRAMES 0 true = Some 0.
Proof.
  split.
  - refine (proj2 (proj1 (proj1 (C4_pause_bridged_or_stop_on_first_frame
              worked_envelope 0.015 MAX_PAUSE_FRAMES 6 2 0 _ _) _ _) _ _ _)).
    + unfold MAX_PAUSE_FRAMES. lia.
    + lia.
    + lia.
    + intros j Hj. assert (Hc : j = 0 \/ j = 1) by lia.
      destruct Hc; subst j; vm_compute; reflexivity.
    + unfold MAX_PAUSE_FRAMES. lia.
    + vm_compute. reflexivity.
    + vm_compute. reflexivity.
  - refine (proj2 (proj2 (C4_pause_bridged_or_stop_on_first_frame
              worked_envelope 0.015 MAX_PAUSE_FRAMES 0 1 0 _ _) _ _) _ _).
    + unfold MAX_PAUSE_FRAMES. lia.
    + lia.
    + vm_compute. reflexivity.
    + intros j Hj. assert (j = 0) by lia. subst j. vm_compute. reflexivity.
    + lia.
    + right. reflexivity.
Defined.

(** C4 as the claim words it fails: on the worked envelope the left
    scan meets the one-frame run at index 0, which touches the edge, and
    ends on frame 0, not on the preceding frame 1. *)
Lemma C4_counterexample :
  ~ stops_before_run_left worked_envelope 0.015 MAX_PAUSE_FRAMES.
Proof.
  intro H. specialize (H 0 1 0%nat).
  assert (Hstop : left_loop 1 worked_envelope 0.015 MAX_PAUSE_FRAMES 0 true
                  = Some (0 + 1)).
  { apply H.
    - vm_compute. split; [discriminate | reflexivity].
    - lia.
    - intros j Hj. assert (j = 0) by lia. subst j. vm_compute. reflexivity.
    - right. reflexivity. }
  vm_compute in Hstop. discriminate Hstop.
Qed.

(** C5 (as amended).  Whenever the frame pair [(start, end)] lies inside
    the time table ([0 <= start] in particular), the call returns, with
    onset [start * HOP_LENGTH / 22050] and total duration
    [end * HOP_LENGTH / 22050 - onset]: the times are computed at
    librosa's default rate 22050, whatever [audio_rate] is passed, and
    agree with the rate of the call exactly when that rate is 22050. *)
Theorem C5_times_at_default_rate :
  forall L fuel audio rate fname word thr thr_end (norm : bool) start end_,
    analysis_envelope L audio rate <> [] ->
    Qeq_bool (np_max (analysis_envelope L audio rate)
              - np_min (analysis_envelope L audio rate)) 0 = false ->
    slice_boundaries fuel
      (if norm then normalize (analysis_envelope L audio rate)
       else analysis_envelope L audio rate)
      word thr thr_end MAX_PAUSE_FRAMES = Return (start, end_) ->
    0 <= start < Z.of_nat (List.length audio) ->
    0 <= end_ < Z.of_nat (List.length audio) ->
    exists sound_s onset total_duration,
      slice_noise_reduced_audio_files_byt L fuel audio rate fname word thr
        thr_end norm = Return (sound_s, onset, total_duration)
      /\ (onset == inject_Z (start * HOP_LENGTH) / LIBROSA_DEFAULT_SR)%Q
      /\ (total_duration
          == inject_Z (end_ * HOP_LENGTH) / LIBROSA_DEFAULT_SR - onset)%Q
      /\ ((rate == LIBROSA_DEFAULT_SR)%Q ->
          (onset == inject_Z (start * HOP_LENGTH) / rate)%Q
          /\ (total_duration == inject_Z (end_ * HOP_LENGTH) / rate - onset)%Q).
Proof.
  intros L fuel audio rate fname word thr thr_end norm start end_
         Hne Hdeg Hb Hs He.
  unfold slice_noise_reduced_audio_files_byt.
  destruct (analysis_envelope L audio rate) as [|x l] eqn:E; [contradiction|].
  rewrite Hdeg, Hb. cbn [bind fst snd]. unfold slice_outputs, t_at.
  replace ((0 <=? end_) && (end_ <? Z.of_nat (List.length audio))) with true
    by (symmetry; apply andb_true_iff; split;
        [apply Z.leb_le | apply Z.ltb_lt]; lia).
  replace ((0 <=? start) && (start <? Z.of_nat (List.length audio))) with true
    by (symmetry; apply andb_true_iff; split;
        [apply Z.leb_le | apply Z.ltb_lt]; lia).
  cbn [of_option bind].
  eexists _, _, _. split; [reflexivity|].
  unfold frames_to_time. split; [reflexivity|]. split; [reflexivity|].
  intro Hrate. rewrite Hrate. split; reflexivity.
Qed.

(** A 1280-sample clip with two quiet frames on each side: the frame
    pair is [(1, 4)] and the onset is [256 / 22050]. *)
Lemma C5_witness :
  exists sound_s onset total_duration,
    slice_noise_reduced_audio_files_byt
      (fixed_libs None quiet_edges_envelope [] []) 10 samples_1280 22050
      "rec(casa).wav" "casa" THRESHOLD THRESHOLD_END true
    = Return (sound_s, onset, total_duration)
    /\ (onset == inject_Z (1 * HOP_LENGTH) / LIBROSA_DEFAULT_SR)%Q
    /\ (total_duration == inject_Z (4 * HOP_LENGTH) / LIBROSA_DEFAULT_SR - onset)%Q
    /\ ((22050 == LIBROSA_DEFAULT_SR)%Q ->
        (onset == inject_Z (1 * HOP_LENGTH) / 22050)%Q
        /\ (total_duration == inject_Z (4 * HOP_LENGTH) / 22050 - onset)%Q).
Proof.
  apply (C5_times_at_default_rate
           (fixed_libs None quiet_edges_envelope [] []) 10 samples_1280 22050
           "rec(casa).wav" "casa" THRESHOLD THRESHOLD_END true 1 4).
  - discriminate.
  - vm_compute. reflexivity.
  - vm_compute. reflexivity.
  - vm_compute. split; [discriminate | reflexivity].
  - vm_compute. split; [discriminate | reflexivity].
Defined.

(** C5 as the claim words it fails: called with [audio_rate = 44100] on
    the same clip, the function still returns the onset [256 / 22050],
    not [256 / 44100]. *)
Lemma C5_counterexample :
  ~ times_at_call_rate (fixed_libs None quiet_edges_envelope [] []) 10
      samples_1280 44100 "rec(casa).wav" "casa" THRESHOLD THRESHOLD_END true.
Proof.
  intro H.
  edestruct (H 1 4) as [Honset _].
  - vm_compute. reflexivity.
  - vm_compute. reflexivity.
  - vm_compute in Honset. discriminate Honset.
Qed.

(** ** Suffixes of joined paths *)

Lemma append_nil_r (s : string) : (s ++ "")%string = s.
Proof. induction s as [|c s IH]; simpl; [|rewrite IH]; reflexivity. Qed.

Lemma append_assoc (a b c : string) :
  ((a ++ b) ++ c)%string = (a ++ (b ++ c))%string.
Proof. induction a as [|x a IH]; simpl; [|rewrite IH]; reflexivity. Qed.

Lemma string_rev_app (a b : string) :
  string_rev (a ++ b) = (string_rev b ++ string_rev a)%string.
Proof.
  induction a as [|x a IH]; simpl.
  - rewrite append_nil_r. reflexivity.
  - rewrite IH, append_assoc. reflexivity.
Qed.

(** A path separator cannot be part of the reversed suffix ["vaw."]. *)
Lemma prefix_wav_before_sep (x r : string) :
  String.prefix "vaw." (x ++ String "/" r) = String.prefix "vaw." x.
Proof.
  destruct x as [|c1 [|c2 [|c3 [|c4 x]]]]; cbn [append String.prefix];
    repeat match goal with
           | |- context [ascii_dec ?a ?b] => destruct (ascii_dec a b)
           end;
    try reflexivity; try congruence.
  destruct x; reflexivity.
Qed.

Lemma endswith_wav_path_join (root file : string) :
  endswith (path_join root file) ".wav" = endswith file ".wav".
Proof.
  unfold path_join. destruct (startswith file "/"); [reflexivity|].
  destruct (String.eqb root "" || endswith root "/") eqn:E.
  - apply orb_true_iff in E. destruct E as [E|E].
    + apply String.eqb_eq in E. subst root. reflexivity.
    + unfold endswith in *. rewrite string_rev_app.
      destruct (string_rev root) as [|c r]; [discriminate E|].
      cbn [string_rev append String.prefix] in E.
      destruct (ascii_dec "/" c) as [<-|]; [|discriminate E].
      apply prefix_wav_before_sep.
  - unfold endswith. rewrite !string_rev_app. cbn [string_rev append].
    rewrite append_assoc. cbn [append]. apply prefix_wav_before_sep.
Qed.

(** ** process_wav_file, stage by stage *)

Lemma process_wav_file_run L fuel input out rel rt audio word sound onset dur :
  endswith input ".wav" = true ->
  librosa_load L input = Some audio ->
  re_search_parens input = Some word ->
  slice_noise_reduced_audio_files_byt L fuel audio LIBROSA_DEFAULT_SR input word
    THRESHOLD THRESHOLD_END NORMALIZE_RMS = Return (sound, onset, dur) ->
  process_wav_file L fuel input out rel rt =
  match dict_get rt word with
  | Some reference =>
      real_onset <- minus_reference onset reference ;;
      Return (Some ({| File_name := path_join out rel;
                       Reaction_time := real_onset;
                       Total_duration := dur |},
                    acceptance real_onset dur))
  | None => Raise KeyError
  end.
Proof.
  intros Hext Hload Hword Hslice. unfold process_wav_file.
  rewrite Hext, Hload. cbn [negb of_option bind].
  rewrite Hword. cbn [of_option bind]. rewrite Hslice. cbn [bind].
  destruct (dict_get rt word); reflexivity.
Qed.

Lemma process_wav_file_returns L fuel input out rel rt f inc :
  process_wav_file L fuel input out rel rt = Return (Some (f, inc)) ->
  endswith input ".wav" = true /\
  exists audio word sound onset dur reference real_onset,
    librosa_load L input = Some audio
    /\ re_search_parens input = Some word
    /\ slice_noise_reduced_audio_files_byt L fuel audio LIBROSA_DEFAULT_SR
         input word THRESHOLD THRESHOLD_END NORMALIZE_RMS
       = Return (sound, onset, dur)
    /\ dict_get rt word = Some reference
    /\ minus_reference onset reference = Return real_onset
    /\ f = {| File_name := path_join out rel;
              Reaction_time := real_onset;
              Total_duration := dur |}
    /\ inc = acceptance real_onset dur.
Proof.
  unfold process_wav_file. intro H.
  destruct (endswith input ".wav") eqn:Hext; [|discriminate H].
  split; [reflexivity|]. cbn [negb] in H.
  destruct (librosa_load L input) as [audio|] eqn:Hload; [|discriminate H].
  cbn [of_option bind] in H.
  destruct (re_search_parens input) as [word|] eqn:Hword; [|discriminate H].
  cbn [of_option bind] in H.
  destruct (slice_noise_reduced_audio_files_byt L fuel audio LIBROSA_DEFAULT_SR
              input word THRESHOLD THRESHOLD_END NORMALIZE_RMS)
    as [[[sound onset] dur]| |] eqn:Hslice; try discriminate H.
  cbn [bind] in H.
  destruct (dict_get rt word) as [reference|] eqn:Hget; [|discriminate H].
  cbn [of_option bind] in H.
  destruct (minus_reference onset reference) as [real_onset| |] eqn:Hminus;
    cbn [bind] in H; try discriminate H.
  injection H as <- <-.
  exists audio, word, sound, onset, dur, reference, real_onset.
  repeat split; assumption.
Qed.

(** ** The acceptance window *)

Lemma Qgtb_false (x y : Q) : Qgtb x y = false <-> (x <= y)%Q.
Proof. unfold Qgtb. rewrite negb_false_iff. apply Qle_bool_iff. Qed.

Lemma Qltb_false (x y : Q) : Qltb x y = false <-> (y <= x)%Q.
Proof. exact (Qgtb_false y x). Qed.

Lemma acceptance_window (real_onset total_duration : Q) :
  acceptance (Finite real_onset) total_duration = true <->
  ((-0.5 <= real_onset)%Q /\ (real_onset <= 2)%Q)
  /\ ((0.3 <= total_duration)%Q /\ (total_duration <= 3)%Q).
Proof.
  unfold acceptance, float_gtb, float_ltb. rewrite negb_true_iff, !orb_false_iff.
  rewrite !Qgtb_false, !Qltb_false. tauto.
Qed.

(** A NaN reaction time fails none of its two comparisons. *)
Lemma acceptance_nan (total_duration : Q) :
  acceptance NaN total_duration = true <->
  (0.3 <= total_duration)%Q /\ (total_duration <= 3)%Q.
Proof.
  unfold acceptance, float_gtb, float_ltb. rewrite negb_true_iff, !orb_false_iff.
  rewrite !Qgtb_false, !Qltb_false. tauto.
Qed.




(** ** Files ending in the lowercase extension are selected *)




(** ** A constant envelope *)

Lemma slice_degenerate L fuel audio rate fname word thr thr_end norm :
  analysis_envelope L audio rate <> [] ->
  Qeq_bool (np_max (analysis_envelope L audio rate)
            - np_min (analysis_envelope L audio rate)) 0 = true ->
  slice_noise_reduced_audio_files_byt L fuel audio rate fname word thr thr_end norm
  = Return (MinusOne, (-1)%Q, (-1)%Q).
Proof.
  intros Hne Hdeg. unfold slice_noise_reduced_audio_files_byt.
  destruct (analysis_envelope L audio rate) as [|x l] eqn:E; [contradiction|].
  rewrite Hdeg. reflexivity.
Qed.










(** ** The batch returns only when every selected file was processed *)

Lemma process_files_returns L fuel src dst root files rt :
  forall acc report,
    process_files L fuel src dst root files rt acc = Return report ->
    forall file, In file files -> walker_selects file = true ->
    exists f inc,
      process_wav_file L fuel (path_join root file) dst
        (relpath L (path_join root file) src) rt = Return (Some (f, inc)).
Proof.
  induction files as [|x files IH]; intros acc report H file Hin Hsel.
  - destruct Hin.
  - cbn [process_files] in H.
    destruct (walker_selects x) eqn:Hx.
    + destruct (process_wav_file L fuel (path_join root x) dst
                  (relpath L (path_join root x) src) rt)
        as [[[f inc]|]| |] eqn:Hp; cbn [bind] in H; try discriminate H.
      destruct Hin as [<-|Hin].
      * exists f, inc. exact Hp.
      * exact (IH _ _ H file Hin Hsel).
    + destruct Hin as [<-|Hin]; [congruence|].
      exact (IH _ _ H file Hin Hsel).
Qed.

Lemma process_walk_returns L fuel src dst walk rt :
  forall acc report,
    process_walk L fuel src dst walk rt acc = Return report ->
    forall root files file,
      In (root, files) walk -> In file files -> walker_selects file = true ->
      exists f inc,
        process_wav_file L fuel (path_join root file) dst
          (relpath L (path_join root file) src) rt = Return (Some (f, inc)).
Proof.
  induction walk as [|[r fs] walk IH]; intros acc report H root files file Hw Hin Hsel.
  - destruct Hw.
  - cbn [process_walk] in H.
    destruct (process_files L fuel src dst r fs rt acc) as [acc'| |] eqn:Hf;
      cbn [bind] in H; try discriminate H.
    destruct Hw as [Hw|Hw].
    + injection Hw as -> ->.
      exact (process_files_returns L fuel src dst root files rt _ _ Hf file Hin Hsel).
    + exact (IH _ _ H root files file Hw Hin Hsel).
Qed.

(** C7 (as amended).  Nothing catches the failure of [librosa.load]:
    for every selected file whose audio cannot be read,
    [process_wav_file] raises the loader's exception, and a batch whose
    traversal meets such a file does not return a report; when the bad
    file is the first one met, the batch ends with that exception. *)
Theorem C7_corrupt_file_aborts_batch :
  forall L fuel src dst rt root files file,
    In (root, files) (os_walk L src) -> In file files ->
    walker_selects file = true ->
    librosa_load L (path_join root file) = None ->
    (endswith file ".wav" = true ->
       process_wav_file L fuel (path_join root file) dst
         (relpath L (path_join root file) src) rt = Raise LoadError)
    /\ (forall report,
          copy_directory_with_wav_processing L fuel src dst rt <> Return report)
    /\ (forall rest walk',
          os_walk L src = (root, file :: rest) :: walk' ->
          endswith file ".wav" = true ->
          copy_directory_with_wav_processing L fuel src dst rt = Raise LoadError).
Proof.
  intros L fuel src dst rt root files file Hw Hin Hsel Hload.
  assert (Hp : endswith file ".wav" = true ->
               process_wav_file L fuel (path_join root file) dst
                 (relpath L (path_join root file) src) rt = Raise LoadError).
  { intro Hext. unfold process_wav_file.
    rewrite endswith_wav_path_join, Hext, Hload. reflexivity. }
  split; [exact Hp|]. split.
  - intros report H. unfold copy_directory_with_wav_processing in H.
    destruct (process_walk_returns L fuel src dst _ rt _ _ H root files file
                Hw Hin Hsel) as (f & inc & Hret).
    apply process_wav_file_returns in Hret.
    destruct Hret as (_ & audio & word & sound & onset & dur & reference
                      & real_onset & Hsome & _).
    congruence.
  - intros rest walk' Hwalk Hext. unfold copy_directory_with_wav_processing.
    rewrite Hwalk. cbn [process_walk process_files].
    rewrite Hsel, (Hp Hext). reflexivity.
Qed.

Lemma C7_witness :
  copy_directory_with_wav_processing corrupt_libs 10 "data" "out"
    [("casa"%string, number 0.5)] = Raise LoadError.
Proof.
  refine (proj2 (proj2 (C7_corrupt_file_aborts_batch corrupt_libs 10 "data"
            "out" [("casa"%string, number 0.5)] "data" ["rec(casa).wav"%string]
            "rec(casa).wav" _ _ _ _)) [] [] _ _).
  - left. reflexivity.
  - left. reflexivity.
  - vm_compute. reflexivity.
  - reflexivity.
  - reflexivity.
  - vm_compute. reflexivity.
Defined.

(** C7 as the claim words it fails: the batch over that tree does not
    return a report. *)
Lemma C7_counterexample :
  ~ corrupt_file_is_skipped corrupt_libs 10 "data" "out" [("casa"%string, number 0.5)].
Proof.
  intro H.
  destruct (H "data"%string ["rec(casa).wav"%string] "rec(casa).wav"%string)
    as [report Hr].
  - left. reflexivity.
  - left. reflexivity.
  - vm_compute. reflexivity.
  - reflexivity.
  - vm_compute in Hr. discriminate Hr.
Qed.

(** C10.  A file whose name ends in ".wav" up to case but not in the
    lowercase ".wav" is selected by the walker's filter, while
    [process_wav_file] returns [None] for it; unpacking that result
    raises TypeError, so the batch ends with TypeError when such a file
    is the first one met, and never returns a report when such a file
    is met at all. *)
Theorem C10_uppercase_extension_aborts_batch :
  forall L fuel src dst rt root file,
    walker_selects file = true ->
    endswith file ".wav" = false ->
    process_wav_file L fuel (path_join root file) dst
      (relpath L (path_join root file) src) rt = Return None
    /\ (forall rest walk',
          os_walk L src = (root, file :: rest) :: walk' ->
          copy_directory_with_wav_processing L fuel src dst rt = Raise TypeError)
    /\ (forall files report,
          In (root, files) (os_walk L src) -> In file files ->
          copy_directory_with_wav_processing L fuel src dst rt <> Return report).
Proof.
  intros L fuel src dst rt root file Hsel Hext.
  assert (Hp : process_wav_file L fuel (path_join root file) dst
                 (relpath L (path_join root file) src) rt = Return None).
  { unfold process_wav_file. rewrite endswith_wav_path_join, Hext. reflexivity. }
  split; [exact Hp|]. split.
  - intros rest walk' Hwalk. unfold copy_directory_with_wav_processing.
    rewrite Hwalk. cbn [process_walk process_files]. rewrite Hsel, Hp.
    reflexivity.
  - intros files report Hw Hin H. unfold copy_directory_with_wav_processing in H.
    destruct (process_walk_returns L fuel src dst _ rt _ _ H root files file
                Hw Hin Hsel) as (f & inc & Hret).
    congruence.
Qed.

Lemma C10_witness :
  walker_selects "X(casa).WAV" = true
  /\ process_wav_file capitals_libs 10 (path_join "data" "X(casa).WAV") "out"
       (relpath capitals_libs (path_join "data" "X(casa).WAV") "data")
       [("casa"%string, number 0.5)] = Return None
  /\ copy_directory_with_wav_processing capitals_libs 10 "data" "out"
       [("casa"%string, number 0.5)] = Raise TypeError.
Proof.
  assert (Hsel : walker_selects "X(casa).WAV" = true) by (vm_compute; reflexivity).
  assert (Hext : endswith "X(casa).WAV" ".wav" = false) by (vm_compute; reflexivity).
  split; [exact Hsel|]. split.
  - exact (proj1 (C10_uppercase_extension_aborts_batch capitals_libs 10 "data"
                    "out" [("casa"%string, number 0.5)] "data" "X(casa).WAV" Hsel Hext)).
  - exact (proj1 (proj2 (C10_uppercase_extension_aborts_batch capitals_libs 10
                    "data" "out" [("casa"%string, number 0.5)] "data" "X(casa).WAV"
                    Hsel Hext)) ["rec(casa).wav"%string] [] eq_refl).
Defined.

(* ================================================================== *)
(** * Further properties of the code                                     *)
(* ================================================================== *)

(** ** Maximum, minimum and the validity test (lines 73-78) *)

Lemma fold_max_bounds (l : list Q) :
  forall m, (m <= fold_left (fun m y => if Qltb m y then y else m) l m)%Q
            /\ (forall y, In y l ->
                  (y <= fold_left (fun m y => if Qltb m y then y else m) l m)%Q).
Proof.
  induction l as [|x l IH]; intro m; cbn [fold_left].
  - split; [lra | intros y []].
  - destruct (IH (if Qltb m x then x else m)) as [H1 H2].
    destruct (Qltb m x) eqn:E.
    + apply Qltb_true in E. split; [lra|].
      intros y [<-|Hy]; [exact H1 | exact (H2 y Hy)].
    + apply Qltb_false in E. split; [exact H1|].
      intros y [<-|Hy]; [lra | exact (H2 y Hy)].
Qed.

Lemma fold_min_bounds (l : list Q) :
  forall m, (fold_left (fun m y => if Qltb y m then y else m) l m <= m)%Q
            /\ (forall y, In y l ->
                  (fold_left (fun m y => if Qltb y m then y else m) l m <= y)%Q).
Proof.
  induction l as [|x l IH]; intro m; cbn [fold_left].
  - split; [lra | intros y []].
  - destruct (IH (if Qltb x m then x else m)) as [H1 H2].
    destruct (Qltb x m) eqn:E.
    + apply Qltb_true in E. split; [lra|].
      intros y [<-|Hy]; [exact H1 | exact (H2 y Hy)].
    + apply Qltb_false in E. split; [exact H1|].
      intros y [<-|Hy]; [lra | exact (H2 y Hy)].
Qed.

Lemma fold_max_in (l : list Q) :
  forall m, In (fold_left (fun m y => if Qltb m y then y else m) l m) (m :: l).
Proof.
  induction l as [|x l IH]; intro m; cbn [fold_left]; [left; reflexivity|].
  destruct (IH (if Qltb m x then x else m)) as [H|H].
  - destruct (Qltb m x); [right; left | left]; exact H.
  - right; right; exact H.
Qed.

Lemma fold_min_in (l : list Q) :
  forall m, In (fold_left (fun m y => if Qltb y m then y else m) l m) (m :: l).
Proof.
  induction l as [|x l IH]; intro m; cbn [fold_left]; [left; reflexivity|].
  destruct (IH (if Qltb x m then x else m)) as [H|H].
  - destruct (Qltb x m); [right; left | left]; exact H.
  - right; right; exact H.
Qed.

Lemma np_max_upper (l : list Q) x : In x l -> (x <= np_max l)%Q.
Proof.
  destruct l as [|a l]; [intros []|]. unfold np_max.
  destruct (fold_max_bounds l a) as [H1 H2].
  intros [<-|Hx]; [exact H1 | exact (H2 x Hx)].
Qed.

Lemma np_min_lower (l : list Q) x : In x l -> (np_min l <= x)%Q.
Proof.
  destruct l as [|a l]; [intros []|]. unfold np_min.
  destruct (fold_min_bounds l a) as [H1 H2].
  intros [<-|Hx]; [exact H1 | exact (H2 x Hx)].
Qed.

Lemma np_max_in (l : list Q) : l <> [] -> In (np_max l) l.
Proof. destruct l as [|a l]; [congruence|]. intros _. apply fold_max_in. Qed.

Lemma np_min_in (l : list Q) : l <> [] -> In (np_min l) l.
Proof. destruct l as [|a l]; [congruence|]. intros _. apply fold_min_in. Qed.

Lemma degenerate_iff_constant (rms : list Q) :
  rms <> [] -> (degenerate rms = true <-> constant_envelope rms).
Proof.
  intro Hne. unfold degenerate, constant_envelope.
  rewrite Qeq_bool_iff. split.
  - intros H x y Hx Hy.
    pose proof (np_max_upper rms x Hx). pose proof (np_min_lower rms x Hx).
    pose proof (np_max_upper rms y Hy). pose proof (np_min_lower rms y Hy).
    lra.
  - intro H.
    pose proof (H _ _ (np_max_in rms Hne) (np_min_in rms Hne)). lra.
Qed.

Lemma slice_outputs_samples audio s e r :
  slice_outputs audio s e = Return r -> exists sound onset dur,
    r = (Samples sound, onset, dur).
Proof.
  unfold slice_outputs. intro H.
  destruct (t_at (Z.of_nat (List.length audio)) e); [|discriminate H].
  destruct (t_at (Z.of_nat (List.length audio)) s); [|discriminate H].
  cbn [of_option bind] in H. injection H as <-. eauto.
Qed.

(** X1.  The early return of line 74 fires exactly on the constant
    envelopes: for a non-empty envelope, the function returns the triple
    (-1, -1, -1) if and only if all frames carry the same energy. *)
Theorem X1_sentinel_iff_constant_envelope :
  forall L fuel audio rate fname word thr thr_end (norm : bool),
    analysis_envelope L audio rate <> [] ->
    (slice_noise_reduced_audio_files_byt L fuel audio rate fname word thr
       thr_end norm = Return (MinusOne, (-1)%Q, (-1)%Q)
     <-> constant_envelope (analysis_envelope L audio rate)).
Proof.
  intros L fuel audio rate fname word thr thr_end norm Hne.
  rewrite <- (degenerate_iff_constant _ Hne). split.
  - intro H. destruct (degenerate (analysis_envelope L audio rate)) eqn:D;
      [reflexivity|]. exfalso.
    unfold slice_noise_reduced_audio_files_byt in H.
    destruct (analysis_envelope L audio rate) as [|x l] eqn:E; [contradiction|].
    unfold degenerate in D. rewrite D in H.
    destruct (slice_boundaries fuel (if norm then normalize (x :: l) else x :: l)
                word thr thr_end MAX_PAUSE_FRAMES) as [b| |];
      cbn [bind] in H; try discriminate H.
    apply slice_outputs_samples in H. destruct H as (sound & onset & dur & H).
    discriminate H.
  - intro D. apply slice_degenerate; assumption.
Qed.

Lemma X1_witness :
  slice_noise_reduced_audio_files_byt flat_libs 10 samples_1280 22050
    "rec(casa).wav" "casa" THRESHOLD THRESHOLD_END true
  = Return (MinusOne, (-1)%Q, (-1)%Q)
  <-> constant_envelope (analysis_envelope flat_libs samples_1280 22050).
Proof. apply X1_sentinel_iff_constant_envelope. discriminate. Defined.

(** ** Min-max normalization (line 78) *)

Lemma nondegenerate_spread (rms : list Q) :
  degenerate rms = false -> rms <> [] /\ (0 < np_max rms - np_min rms)%Q.
Proof.
  intro D. assert (Hne : rms <> []) by (intros ->; discriminate D).
  split; [exact Hne|].
  unfold degenerate in D. apply Qeq_bool_neq in D.
  pose proof (np_max_upper rms _ (np_min_in rms Hne)).
  destruct (Q_dec (np_max rms - np_min rms) 0) as [[H0|H0]|H0];
    [lra | exact H0 | contradiction].
Qed.

Lemma normalize_nonempty (rms : list Q) : rms <> [] -> normalize rms <> [].
Proof. unfold normalize. destruct rms; [congruence | discriminate]. Qed.

Lemma normalize_in_unit (rms : list Q) :
  degenerate rms = false ->
  forall y, In y (normalize rms) -> (0 <= y)%Q /\ (y <= 1)%Q.
Proof.
  intros D y Hy. destruct (nondegenerate_spread rms D) as [Hne Hd].
  unfold normalize in Hy. apply in_map_iff in Hy.
  destruct Hy as (x & <- & Hx).
  pose proof (np_max_upper rms x Hx). pose proof (np_min_lower rms x Hx).
  split.
  - apply Qle_shift_div_l; [exact Hd | lra].
  - apply Qle_shift_div_r; [exact Hd | lra].
Qed.

Lemma normalize_min (rms : list Q) :
  degenerate rms = false -> (np_min (normalize rms) == 0)%Q.
Proof.
  intro D. destruct (nondegenerate_spread rms D) as [Hne Hd].
  assert (Hin : In ((np_min rms - np_min rms) / (np_max rms - np_min rms))%Q
                  (normalize rms))
    by (unfold normalize;
        apply (in_map (fun x => ((x - np_min rms) / (np_max rms - np_min rms))%Q)),
              np_min_in, Hne).
  pose proof (np_min_lower _ _ Hin) as Hle.
  destruct (normalize_in_unit rms D _ (np_min_in _ (normalize_nonempty rms Hne)))
    as [Hge _].
  assert (((np_min rms - np_min rms) / (np_max rms - np_min rms) == 0)%Q)
    by (unfold Qdiv; setoid_replace (np_min rms - np_min rms)%Q with 0%Q by lra;
        apply Qmult_0_l).
  lra.
Qed.

Lemma normalize_max (rms : list Q) :
  degenerate rms = false -> (np_max (normalize rms) == 1)%Q.
Proof.
  intro D. destruct (nondegenerate_spread rms D) as [Hne Hd].
  assert (Hin : In ((np_max rms - np_min rms) / (np_max rms - np_min rms))%Q
                  (normalize rms))
    by (unfold normalize;
        apply (in_map (fun x => ((x - np_min rms) / (np_max rms - np_min rms))%Q)),
              np_max_in, Hne).
  pose proof (np_max_upper _ _ Hin) as Hle.
  destruct (normalize_in_unit rms D _ (np_max_in _ (normalize_nonempty rms Hne)))
    as [_ Hge].
  assert (((np_max rms - np_min rms) / (np_max rms - np_min rms) == 1)%Q)
    by (apply Qmult_inv_r; lra).
  lra.
Qed.

(** X2.  On an envelope that passes the validity test, the rescaling of
    line 78 yields values between 0 and 1, with minimum 0 and maximum
    1. *)
Theorem X2_normalize_unit_range :
  forall rms,
    degenerate rms = false ->
    (forall y, In y (normalize rms) -> (0 <= y)%Q /\ (y <= 1)%Q)
    /\ (np_min (normalize rms) == 0)%Q
    /\ (np_max (normalize rms) == 1)%Q.
Proof.
  intros rms D. split; [|split].
  - exact (normalize_in_unit rms D).
  - exact (normalize_min rms D).
  - exact (normalize_max rms D).
Qed.

Lemma X2_witness :
  (forall y, In y (normalize worked_envelope) -> (0 <= y)%Q /\ (y <= 1)%Q)
  /\ (np_min (normalize worked_envelope) == 0)%Q
  /\ (np_max (normalize worked_envelope) == 1)%Q.
Proof. apply X2_normalize_unit_range. vm_compute. reflexivity. Defined.

(** ** Termination of the search on the frames it visits (lines 86-113) *)

Lemma rms_get_In (rms : list Q) i : 0 <= i < size rms -> In (rms_get rms i) rms.
Proof.
  intro H. unfold rms_get, size in *. apply nth_In. lia.
Qed.

Section TerminationOnFrames.

Variables (rms : list Q) (thr : Q) (maxp : Z).
Hypothesis cap_nonneg : 0 <= maxp.
Hypothesis no_frame_on_threshold : forall x, In x rms -> ~ (x == thr)%Q.

Lemma left_loop_ends (n : nat) :
  forall start flag, start + 1 <= Z.of_nat n -> start < size rms ->
  exists r, forall fuel, (n <= fuel)%nat ->
    left_loop fuel rms thr maxp start flag = Some r.
Proof.
  induction n as [|n IH]; intros start flag Hn Hlt.
  - exists start. intros fuel _. apply left_loop_exit.
    replace (0 <=? start) with false by (symmetry; apply Z.leb_gt; lia).
    reflexivity.
  - destruct ((0 <=? start) && flag) eqn:G.
    + apply andb_true_iff in G. destruct G as [G ->]. apply Z.leb_le in G.
      destruct (left_body_progress rms thr maxp start cap_nonneg G
                  (no_frame_on_threshold _ (rms_get_In rms start ltac:(lia))))
        as [Hf|Hs].
      * exists (fst (left_body rms thr maxp start)).
        intros [|fuel] Hfuel; [lia|].
        rewrite left_loop_step by assumption. rewrite Hf.
        apply left_loop_exit, andb_false_r.
      * destruct (IH (fst (left_body rms thr maxp start))
                     (snd (left_body rms thr maxp start)) ltac:(lia) ltac:(lia))
          as [r Hr].
        exists r. intros [|fuel] Hfuel; [lia|].
        rewrite left_loop_step by assumption. apply Hr. lia.
    + exists start. intros fuel _. apply left_loop_exit. exact G.
Qed.

Lemma right_loop_ends (n : nat) :
  forall end_ flag, size rms - end_ <= Z.of_nat n -> 0 <= end_ ->
  exists r, forall fuel, (n <= fuel)%nat ->
    right_loop fuel rms thr maxp end_ flag = Some r.
Proof.
  induction n as [|n IH]; intros end_ flag Hn Hge.
  - exists end_. intros fuel _. apply right_loop_exit.
    replace (end_ <? size rms) with false by (symmetry; apply Z.ltb_ge; lia).
    reflexivity.
  - destruct ((end_ <? size rms) && flag) eqn:G.
    + apply andb_true_iff in G. destruct G as [G ->]. apply Z.ltb_lt in G.
      destruct (right_body_progress rms thr maxp end_ cap_nonneg G
                  (no_frame_on_threshold _ (rms_get_In rms end_ ltac:(lia))))
        as [Hf|Hs].
      * exists (fst (right_body rms thr maxp end_)).
        intros [|fuel] Hfuel; [lia|].
        rewrite right_loop_step by assumption. rewrite Hf.
        apply right_loop_exit, andb_false_r.
      * destruct (IH (fst (right_body rms thr maxp end_))
                     (snd (right_body rms thr maxp end_)) ltac:(lia) ltac:(lia))
          as [r Hr].
        exists r. intros [|fuel] Hfuel; [lia|].
        rewrite right_loop_step by assumption. apply Hr. lia.
    + exists end_. intros fuel _. apply right_loop_exit. exact G.
Qed.

End TerminationOnFrames.

Lemma np_argmax_lt (rms : list Q) : rms <> [] -> 0 <= np_argmax rms < size rms.
Proof.
  unfold np_argmax, size. destruct rms as [|x l]; [congruence|]. intros _.
  assert (G : forall l bi b i, 0 <= bi < i ->
             0 <= argmax_from bi b i l < i + Z.of_nat (List.length l)).
  { clear. induction l as [|y l IH]; intros bi b i Hb; cbn [argmax_from List.length].
    - lia.
    - destruct (Qltb b y).
      + specialize (IH i y (i + 1) ltac:(lia)). lia.
      + specialize (IH bi b (i + 1) ltac:(lia)). lia. }
  specialize (G l 0 x 1 ltac:(lia)). cbn [List.length]. lia.
Qed.

(** X3.  When no frame of the envelope equals the left threshold or the
    right threshold (and the pause cap is not negative), both scans end
    within [len + 1] iterations each, and the pair they produce encloses
    the loudest frame, with the start no lower than -1 and the end no
    higher than the length of the envelope. *)
Theorem X3_search_ends_off_threshold :
  forall rms thr thr_end maxp,
    rms <> [] -> 0 <= maxp ->
    (forall x, In x rms -> ~ (x == thr)%Q) ->
    (forall x, In x rms -> ~ (x == thr_end)%Q) ->
    exists start end_,
      (forall fuel, (S (List.length rms) <= fuel)%nat ->
         boundary_search fuel rms thr thr_end maxp = Some (start, end_))
      /\ -1 <= start <= np_argmax rms
      /\ np_argmax rms <= end_ <= size rms.
Proof.
  intros rms thr thr_end maxp Hne Hm Hl Hr.
  pose proof (np_argmax_lt rms Hne) as Hmid.
  destruct (left_loop_ends rms thr maxp Hm Hl (S (List.length rms))
              (np_argmax rms) true ltac:(unfold size in *; lia) ltac:(lia))
    as [s Hs].
  destruct (right_loop_ends rms thr_end maxp Hm Hr (S (List.length rms))
              (np_argmax rms) true ltac:(unfold size in *; lia) ltac:(lia))
    as [e He].
  exists s, e.
  assert (Hb : forall fuel, (S (List.length rms) <= fuel)%nat ->
               boundary_search fuel rms thr thr_end maxp = Some (s, e)).
  { intros fuel Hfuel. unfold boundary_search.
    rewrite Hs, He by assumption. reflexivity. }
  split; [exact Hb|].
  exact (boundary_search_range _ _ _ _ _ _ _ (Hb _ (le_n _))).
Qed.

Lemma worked_envelope_off_threshold :
  forall x, In x worked_envelope -> ~ (x == 0.015)%Q.
Proof.
  intros x Hx H. unfold worked_envelope in Hx. cbn [In] in Hx.
  repeat (destruct Hx as [<-|Hx]; [vm_compute in H; discriminate H|]).
  exact Hx.
Qed.

Lemma X3_witness :
  exists start end_,
    (forall fuel, (S (List.length worked_envelope) <= fuel)%nat ->
       boundary_search fuel worked_envelope 0.015 0.015 MAX_PAUSE_FRAMES
       = Some (start, end_))
    /\ -1 <= start <= np_argmax worked_envelope
    /\ np_argmax worked_envelope <= end_ <= size worked_envelope.
Proof.
  apply X3_search_ends_off_threshold.
  - discriminate.
  - unfold MAX_PAUSE_FRAMES. lia.
  - exact worked_envelope_off_threshold.
  - exact worked_envelope_off_threshold.
Defined.

(** ** The frame pair after the end extension (lines 116-119) *)

Lemma lexical_extension_cases word rms e e' :
  lexical_extension word rms e = Return e' ->
  exists c, last_char word = Some c
    /\ e' = (if negb (is_aeiou c)
             then (if size rms <=? e + 12 then size rms - 1 else e + 12)
             else e).
Proof.
  unfold lexical_extension. intro H.
  destruct (last_char word) as [c|]; [|discriminate H].
  cbn [of_option bind] in H. exists c. split; [reflexivity|].
  destruct (negb (is_aeiou c)); injection H as <-; reflexivity.
Qed.

(** X4.  Whenever the frame pair is produced for a non-empty envelope,
    it encloses the loudest frame, the start is at least -1 and the end
    at most the length of the envelope; for a word whose last character
    is not one of a, e, i, o, u the end is a valid frame index (at most
    [len - 1]), and for a word ending in one of them it is the end the
    right scan reached. *)
Theorem X4_frame_pair_range :
  forall fuel rms word thr thr_end maxp start end_,
    rms <> [] ->
    slice_boundaries fuel rms word thr thr_end maxp = Return (start, end_) ->
    -1 <= start <= np_argmax rms
    /\ np_argmax rms <= end_ <= size rms
    /\ exists c end0,
         last_char word = Some c
         /\ boundary_search fuel rms thr thr_end maxp = Some (start, end0)
         /\ (is_aeiou c = false -> end_ <= size rms - 1 /\ end_ <= end0 + 12)
         /\ (is_aeiou c = true -> end_ = end0).
Proof.
  intros fuel rms word thr thr_end maxp start end_ Hne H.
  unfold slice_boundaries in H.
  destruct (boundary_search fuel rms thr thr_end maxp) as [[s e0]|] eqn:Hb;
    [|discriminate H].
  destruct (lexical_extension word rms e0) as [e'| |] eqn:Hx;
    cbn [bind] in H; try discriminate H.
  injection H as -> ->.
  apply boundary_search_range in Hb as Hr. destruct Hr as [Hs He].
  apply lexical_extension_cases in Hx. destruct Hx as (c & Hc & ->).
  pose proof (np_argmax_lt rms Hne) as Hmid.
  destruct (is_aeiou c) eqn:Hv; cbn [negb].
  - split; [exact Hs|]. split; [exact He|].
    exists c, e0. repeat split; try assumption; try congruence; reflexivity.
  - split; [exact Hs|].
    destruct (size rms <=? e0 + 12) eqn:Hclamp;
      [apply Z.leb_le in Hclamp | apply Z.leb_gt in Hclamp].
    + split; [lia|]. exists c, e0. repeat split; try assumption; try lia.
      congruence.
    + split; [lia|]. exists c, e0. repeat split; try assumption; try lia.
      congruence.
Qed.

Lemma X4_witness :
  -1 <= 0 <= np_argmax worked_envelope
  /\ np_argmax worked_envelope <= 9 <= size worked_envelope
  /\ exists c end0,
       last_char "pan" = Some c
       /\ boundary_search 10 worked_envelope 0.015 0.015 MAX_PAUSE_FRAMES
          = Some (0, end0)
       /\ (is_aeiou c = false -> 9 <= size worked_envelope - 1 /\ 9 <= end0 + 12)
       /\ (is_aeiou c = true -> 9 = end0).
Proof.
  apply (X4_frame_pair_range 10 worked_envelope "pan" 0.015 0.015
           MAX_PAUSE_FRAMES 0 9).
  - discriminate.
  - vm_compute. reflexivity.
Defined.

(** ** Where a scan comes to rest *)

Lemma left_body_flag_cleared rms thr maxp s :
  snd (left_body rms thr maxp s) = false ->
  fst (left_body rms thr maxp s) = s /\ Qgtb (rms_get rms s) thr = false.
Proof.
  unfold left_body. destruct (Qgtb (rms_get rms s) thr); [discriminate|].
  destruct ((s - left_probe (Z.to_nat maxp) rms thr s 0 =? -1)
            || (left_probe (Z.to_nat maxp) rms thr s 0 =? maxp));
    cbn [fst snd]; [split; reflexivity | discriminate].
Qed.

Lemma right_body_flag_cleared rms thr maxp e :
  snd (right_body rms thr maxp e) = false ->
  fst (right_body rms thr maxp e) = e /\ Qgtb (rms_get rms e) thr = false.
Proof.
  unfold right_body. destruct (Qgtb (rms_get rms e) thr); [discriminate|].
  destruct ((e + right_probe (Z.to_nat maxp) rms thr e 0 =? size rms)
            || (right_probe (Z.to_nat maxp) rms thr e 0 =? maxp));
    cbn [fst snd]; [split; reflexivity | discriminate].
Qed.

Lemma left_loop_rest fuel rms thr maxp :
  forall s flag r,
    -1 <= s ->
    (flag = false -> 0 <= s -> Qgtb (rms_get rms s) thr = false) ->
    left_loop fuel rms thr maxp s flag = Some r ->
    r = -1 \/ (0 <= r /\ Qgtb (rms_get rms r) thr = false).
Proof.
  induction fuel as [|fuel IH]; intros s flag r Hs Hflag H.
  - simpl in H. destruct ((0 <=? s) && flag) eqn:G; [discriminate H|].
    injection H as <-. apply andb_false_iff in G. destruct G as [G|G].
    + apply Z.leb_gt in G. left. lia.
    + destruct (Z_lt_le_dec s 0); [left; lia | right; auto].
  - destruct ((0 <=? s) && flag) eqn:G.
    + apply andb_true_iff in G. destruct G as [G ->]. apply Z.leb_le in G.
      rewrite left_loop_step in H by assumption.
      pose proof (left_body_range rms thr maxp s G) as Hb.
      apply IH in H; [exact H | lia |].
      intros Hf _. apply left_body_flag_cleared in Hf. destruct Hf as [-> Hf].
      exact Hf.
    + rewrite left_loop_exit in H by assumption. injection H as <-.
      apply andb_false_iff in G. destruct G as [G|G].
      * apply Z.leb_gt in G. left. lia.
      * destruct (Z_lt_le_dec s 0); [left; lia | right; auto].
Qed.

Lemma right_loop_rest fuel rms thr maxp :
  forall e flag r,
    e <= size rms ->
    (flag = false -> e < size rms -> Qgtb (rms_get rms e) thr = false) ->
    right_loop fuel rms thr maxp e flag = Some r ->
    r = size rms \/ (r < size rms /\ Qgtb (rms_get rms r) thr = false).
Proof.
  induction fuel as [|fuel IH]; intros e flag r He Hflag H.
  - simpl in H. destruct ((e <? size rms) && flag) eqn:G; [discriminate H|].
    injection H as <-. apply andb_false_iff in G. destruct G as [G|G].
    + apply Z.ltb_ge in G. left. lia.
    + destruct (Z_lt_le_dec e (size rms)); [right; auto | left; lia].
  - destruct ((e <? size rms) && flag) eqn:G.
    + apply andb_true_iff in G. destruct G as [G ->]. apply Z.ltb_lt in G.
      rewrite right_loop_step in H by assumption.
      pose proof (right_body_range rms thr maxp e G) as Hb.
      apply IH in H; [exact H | lia |].
      intros Hf _. apply right_body_flag_cleared in Hf. destruct Hf as [-> Hf].
      exact Hf.
    + rewrite right_loop_exit in H by assumption. injection H as <-.
      apply andb_false_iff in G. destruct G as [G|G].
      * apply Z.ltb_ge in G. left. lia.
      * destruct (Z_lt_le_dec e (size rms)); [right; auto | left; lia].
Qed.

(** X5.  Whenever the search returns, each scan has come to rest either
    off the envelope (start -1, end equal to the length) or on a frame
    whose energy does not exceed its threshold: a boundary inside the
    envelope is never a frame above the threshold. *)
Theorem X5_scans_rest_on_quiet_frames :
  forall fuel rms thr thr_end maxp start end_,
    boundary_search fuel rms thr thr_end maxp = Some (start, end_) ->
    (start = -1 \/ (0 <= start /\ (rms_get rms start <= thr)%Q))
    /\ (end_ = size rms \/ (end_ < size rms /\ (rms_get rms end_ <= thr_end)%Q)).
Proof.
  intros fuel rms thr thr_end maxp start end_ H.
  pose proof (np_argmax_range rms) as Hmid.
  unfold boundary_search in H.
  destruct (left_loop fuel rms thr maxp (np_argmax rms) true) as [s|] eqn:Hl;
    [|discriminate H].
  destruct (right_loop fuel rms thr_end maxp (np_argmax rms) true) as [e|] eqn:Hr;
    [|discriminate H].
  injection H as <- <-.
  apply left_loop_rest in Hl; [|lia|discriminate].
  apply right_loop_rest in Hr; [|lia|discriminate].
  split.
  - destruct Hl as [Hl|[Hl1 Hl2]]; [left; exact Hl|].
    right. split; [exact Hl1 | apply Qgtb_false; exact Hl2].
  - destruct Hr as [Hr|[Hr1 Hr2]]; [left; exact Hr|].
    right. split; [exact Hr1 | apply Qgtb_false; exact Hr2].
Qed.

Lemma X5_witness :
  (0 = -1 \/ (0 <= 0 /\ (rms_get worked_envelope 0 <= 0.015)%Q))
  /\ (10 = size worked_envelope
      \/ (10 < size worked_envelope /\ (rms_get worked_envelope 10 <= 0.015)%Q)).
Proof.
  apply (X5_scans_rest_on_quiet_frames 10 worked_envelope 0.015 0.015
           MAX_PAUSE_FRAMES 0 10).
  vm_compute. reflexivity.
Defined.

(** ** The loudest frame lies strictly inside the slice *)





(** ** The word between the parentheses (lines 136-139) *)

Lemma until_close_word (w post : string) :
  contains ")" w = false -> contains newline w = false ->
  until_close (w ++ String ")" post) = Some w.
Proof.
  induction w as [|c w IH]; cbn [append until_close contains]; intros H1 H2.
  - reflexivity.
  - apply orb_false_iff in H1. destruct H1 as [H1 H1'].
    apply orb_false_iff in H2. destruct H2 as [H2 H2'].
    rewrite H1, H2, (IH H1' H2'). reflexivity.
Qed.

Lemma re_search_skip (pre s : string) :
  contains "(" pre = false ->
  re_search_parens (pre ++ s) = re_search_parens s.
Proof.
  induction pre as [|c pre IH]; cbn [append re_search_parens contains]; intro H.
  - reflexivity.
  - apply orb_false_iff in H. destruct H as [H H']. rewrite H. exact (IH H').
Qed.

Lemma until_close_none (s : string) : contains ")" s = false -> until_close s = None.
Proof.
  induction s as [|c s IH]; cbn [until_close contains]; intro H; [reflexivity|].
  apply orb_false_iff in H. destruct H as [H H']. rewrite H, (IH H').
  destruct (Ascii.eqb c newline); reflexivity.
Qed.

Lemma re_search_none (s : string) :
  contains "(" s = false \/ contains ")" s = false -> re_search_parens s = None.
Proof.
  induction s as [|c s IH]; cbn [re_search_parens contains]; intro H;
    [reflexivity|].
  assert (IH' : re_search_parens s = None).
  { apply IH. destruct H as [H|H]; apply orb_false_iff in H; tauto. }
  destruct (Ascii.eqb c "(") eqn:E; [|exact IH'].
  destruct H as [H|H]; [discriminate H|].
  apply orb_false_iff in H. destruct H as [_ H].
  rewrite (until_close_none s H). exact IH'.
Qed.

(** X7.  The target word is the content of the first parenthesised
    token of the whole path handed to [process_wav_file]: for a path
    [pre(w)post] where [pre] has no opening parenthesis and [w] neither
    a closing parenthesis nor a newline, the pattern of line 136 yields
    exactly [w], whatever follows. *)
Theorem X7_word_is_first_parenthesised_token :
  forall pre w post,
    contains "(" pre = false ->
    contains ")" w = false -> contains newline w = false ->
    re_search_parens (pre ++ String "(" (w ++ String ")" post)) = Some w.
Proof.
  intros pre w post Hpre Hw Hnl.
  rewrite (re_search_skip pre _ Hpre). cbn [re_search_parens].
  replace (Ascii.eqb "(" "(") with true by reflexivity.
  rewrite (until_close_word w post Hw Hnl). reflexivity.
Qed.

(** A directory name carrying parentheses supplies the word. *)
Lemma X7_witness :
  re_search_parens ("data" ++ String "(" ("v2" ++ String ")" "/rec(casa).wav"))
  = Some "v2"%string.
Proof.
  apply X7_word_is_first_parenthesised_token; vm_compute; reflexivity.
Defined.

(** X8.  A readable [.wav] file whose path lacks an opening or a closing
    parenthesis makes [process_wav_file] raise AttributeError (line 139
    calls [group] on [None]), before any slicing and whatever the
    reference table holds. *)
Theorem X8_no_parentheses_attribute_error :
  forall L fuel input out rel rt audio,
    endswith input ".wav" = true ->
    librosa_load L input = Some audio ->
    contains "(" input = false \/ contains ")" input = false ->
    process_wav_file L fuel input out rel rt = Raise AttributeError.
Proof.
  intros L fuel input out rel rt audio Hext Hload Hpar.
  unfold process_wav_file. rewrite Hext, Hload. cbn [negb of_option bind].
  rewrite (re_search_none input Hpar). reflexivity.
Qed.

Lemma X8_witness :
  process_wav_file casa_libs 10 "data/rec_casa.wav" "out" "rec_casa.wav" casa_table
  = Raise AttributeError.
Proof.
  apply (X8_no_parentheses_attribute_error casa_libs 10 "data/rec_casa.wav" "out"
           "rec_casa.wav" casa_table samples_1280).
  - vm_compute. reflexivity.
  - reflexivity.
  - left. vm_compute. reflexivity.
Defined.

(** ** The reference table built by main (lines 205-207) *)

Lemma dict_get_set (d : dict) k v k' :
  dict_get (dict_set d k v) k' = if String.eqb k' k then Some v else dict_get d k'.
Proof.
  induction d as [|[k0 v0] d IH]; cbn [dict_set dict_get].
  - reflexivity.
  - destruct (String.eqb k k0) eqn:E; cbn [dict_get].
    + apply String.eqb_eq in E. subst k0.
      destruct (String.eqb k' k); reflexivity.
    + rewrite IH. destruct (String.eqb k' k0) eqn:E0; [|reflexivity].
      apply String.eqb_eq in E0. subst k0.
      rewrite String.eqb_sym, E. reflexivity.
Qed.

Lemma find_snoc {A : Type} (p : A -> bool) (l : list A) (x : A) :
  find p (l ++ [x]) =
  match find p l with
  | Some y => Some y
  | None => if p x then Some x else None
  end.
Proof.
  induction l as [|a l IH]; cbn [app find]; [reflexivity|].
  destruct (p a); [reflexivity | exact IH].
Qed.

(** A dict filled row by row under the keys [g word]: the value under a
    key is the one of the last row mapped to it. *)
Lemma dict_get_fold (g : string -> string) (rows : list (string * cell)) :
  forall (acc : dict) K,
    dict_get (fold_left (fun d kv => dict_set d (g (fst kv)) (snd kv)) rows acc) K
    = match find (fun kv => String.eqb (g (fst kv)) K) (rev rows) with
      | Some kv => Some (snd kv)
      | None => dict_get acc K
      end.
Proof.
  induction rows as [|x rows IH]; intros acc K; cbn [fold_left rev find].
  - reflexivity.
  - rewrite IH, find_snoc.
    destruct (find (fun kv => String.eqb (g (fst kv)) K) (rev rows));
      [reflexivity|].
    rewrite dict_get_set, String.eqb_sym. destruct (String.eqb (g (fst x)) K);
      reflexivity.
Qed.

Lemma to_dict_get (rows : list (string * cell)) k :
  dict_get (to_dict rows) k = last_row_value k rows.
Proof.
  unfold to_dict, last_row_value.
  rewrite (dict_get_fold (fun w => w) rows [] k).
  destruct (find (fun kv => String.eqb (fst kv) k) (rev rows)); reflexivity.
Qed.

Lemma ascii_lower_idem (c : ascii) : ascii_lower (ascii_lower c) = ascii_lower c.
Proof. destruct c as [[] [] [] [] [] [] [] []]; reflexivity. Qed.

Lemma lower_idem (s : string) : lower (lower s) = lower s.
Proof.
  induction s as [|c s IH]; cbn [lower]; [reflexivity|].
  rewrite ascii_lower_idem, IH. reflexivity.
Qed.

(** Every key of the table is in lower case. *)
Lemma normalized_keys_lower L (d : dict) K v :
  dict_get (normalized_robot_times L d) K = Some v -> lower K = K.
Proof.
  unfold normalized_robot_times. rewrite (dict_get_fold (normalize_key L) d [] K).
  destruct (find (fun kv => String.eqb (normalize_key L (fst kv)) K) (rev d))
    as [kv|] eqn:F; [|discriminate].
  intros _. apply find_some in F. destruct F as [_ F].
  apply String.eqb_eq in F. subst K. unfold normalize_key. apply lower_idem.
Qed.

(** X9.  The table built by main holds lower-case keys only, so a file
    whose word contains an upper-case ASCII letter is never found in it:
    once such a file is sliced, [process_wav_file] raises KeyError,
    whatever the sheet contains. *)
Theorem X9_uppercase_word_key_error :
  forall L fuel input out rel rows audio word sound onset dur,
    endswith input ".wav" = true ->
    librosa_load L input = Some audio ->
    re_search_parens input = Some word ->
    slice_noise_reduced_audio_files_byt L fuel audio LIBROSA_DEFAULT_SR input
      word THRESHOLD THRESHOLD_END NORMALIZE_RMS = Return (sound, onset, dur) ->
    lower word <> word ->
    dict_get (normalized_robot_times L (to_dict rows)) word = None
    /\ process_wav_file L fuel input out rel
         (normalized_robot_times L (to_dict rows)) = Raise KeyError.
Proof.
  intros L fuel input out rel rows audio word sound onset dur
         Hext Hload Hword Hslice Hup.
  assert (Hnone : dict_get (normalized_robot_times L (to_dict rows)) word = None).
  { destruct (dict_get (normalized_robot_times L (to_dict rows)) word) as [v|] eqn:G;
      [|reflexivity].
    apply normalized_keys_lower in G. contradiction. }
  split; [exact Hnone|].
  rewrite (process_wav_file_run L fuel input out rel _ audio word sound onset dur
             Hext Hload Hword Hslice).
  rewrite Hnone. reflexivity.
Qed.

Lemma X9_witness :
  dict_get (normalized_robot_times casa_libs (to_dict [("Casa"%string, number 0.5)]))
    "Casa" = None
  /\ process_wav_file casa_libs 10 "data/rec(Casa).wav" "out" "rec(Casa).wav"
       (normalized_robot_times casa_libs (to_dict [("Casa"%string, number 0.5)]))
     = Raise KeyError.
Proof.
  apply (X9_uppercase_word_key_error casa_libs 10 "data/rec(Casa).wav" "out"
           "rec(Casa).wav" [("Casa"%string, number 0.5)] samples_1280 "Casa"
           (Samples (py_slice samples_1280 (1 * HOP_LENGTH)
                       (4 * HOP_LENGTH + FRAME_SIZE)))
           (frames_to_time 1) (frames_to_time 4 - frames_to_time 1)).
  - vm_compute. reflexivity.
  - reflexivity.
  - vm_compute. reflexivity.
  - vm_compute. reflexivity.
  - vm_compute. discriminate.
Defined.

Lemma dict_get_in (d : dict) k v : dict_get d k = Some v -> In (k, v) d.
Proof.
  induction d as [|[k0 v0] d IH]; cbn [dict_get]; [discriminate|].
  destruct (String.eqb k k0) eqn:E.
  - apply String.eqb_eq in E. subst k0. intro H. injection H as <-. left.
    reflexivity.
  - intro H. right. exact (IH H).
Qed.

Lemma in_dict_get (d : dict) k v :
  NoDup (map fst d) -> In (k, v) d -> dict_get d k = Some v.
Proof.
  induction d as [|[k0 v0] d IH]; cbn [map fst dict_get]; intros Hnd Hin;
    [destruct Hin|].
  inversion Hnd as [|? ? Hk0 Hnd']; subst.
  destruct Hin as [Hin|Hin].
  - injection Hin as -> ->. rewrite String.eqb_refl. reflexivity.
  - destruct (String.eqb k k0) eqn:E; [|exact (IH Hnd' Hin)].
    apply String.eqb_eq in E. subst k0. exfalso. apply Hk0.
    apply (in_map fst) in Hin. exact Hin.
Qed.

Lemma dict_set_keys (d : dict) k v k' :
  In k' (map fst (dict_set d k v)) -> k' = k \/ In k' (map fst d).
Proof.
  induction d as [|[k0 v0] d IH]; cbn [dict_set map fst].
  - intros [<-|[]]. left. reflexivity.
  - destruct (String.eqb k k0); cbn [map fst]; intros [H|H];
      [right; left; exact H | right; right; exact H | right; left; exact H |].
    destruct (IH H); [left | right; right]; assumption.
Qed.

Lemma dict_set_nodup (d : dict) k v :
  NoDup (map fst d) -> NoDup (map fst (dict_set d k v)).
Proof.
  induction d as [|[k0 v0] d IH]; cbn [dict_set map fst]; intro Hnd.
  - constructor; [intros [] | constructor].
  - inversion Hnd as [|? ? Hk0 Hnd']; subst.
    destruct (String.eqb k k0) eqn:E; cbn [map fst].
    + constructor; assumption.
    + constructor; [|exact (IH Hnd')].
      intro Hin. apply dict_set_keys in Hin. destruct Hin as [->|Hin].
      * rewrite String.eqb_refl in E. discriminate E.
      * contradiction.
Qed.

Lemma to_dict_nodup (rows : list (string * cell)) : NoDup (map fst (to_dict rows)).
Proof.
  unfold to_dict.
  assert (G : forall acc, NoDup (map fst acc) ->
              NoDup (map fst (fold_left (fun d kv => dict_set d (fst kv) (snd kv))
                                rows acc))).
  { induction rows as [|x rows IH]; intros acc Hacc; cbn [fold_left];
      [exact Hacc|]. apply IH, dict_set_nodup, Hacc. }
  apply G. constructor.
Qed.

(** X10.  For a word of the sheet whose normalized key is shared by no
    other word of the sheet, the table built by main holds, under that
    normalized key, the duration of the last row carrying the word. *)
Theorem X10_table_lookup_without_collision :
  forall L rows k0,
    (forall k' v', In (k', v') rows ->
       normalize_key L k' = normalize_key L k0 -> k' = k0) ->
    dict_get (normalized_robot_times L (to_dict rows)) (normalize_key L k0)
    = last_row_value k0 rows.
Proof.
  intros L rows k0 Huniq. rewrite <- to_dict_get.
  unfold normalized_robot_times.
  rewrite (dict_get_fold (normalize_key L) (to_dict rows) [] (normalize_key L k0)).
  destruct (find (fun kv => String.eqb (normalize_key L (fst kv)) (normalize_key L k0))
              (rev (to_dict rows))) as [[k v]|] eqn:F.
  - apply find_some in F. destruct F as [Hin F]. apply in_rev in Hin.
    apply String.eqb_eq in F. cbn [fst snd] in *.
    pose proof (in_dict_get _ _ _ (to_dict_nodup rows) Hin) as Hget.
    assert (k = k0).
    { rewrite to_dict_get in Hget. unfold last_row_value in Hget.
      destruct (find (fun kv => String.eqb (fst kv) k) (rev rows)) as [[k1 v1]|] eqn:F1;
        [|discriminate Hget].
      apply find_some in F1. destruct F1 as [Hin1 F1]. apply in_rev in Hin1.
      apply String.eqb_eq in F1. cbn [fst] in F1. subst k1.
      exact (Huniq k v1 Hin1 F). }
    subst k. symmetry. exact Hget.
  - cbn [dict_get].
    destruct (dict_get (to_dict rows) k0) as [v|] eqn:G; [|reflexivity].
    apply dict_get_in in G. apply in_rev in G.
    pose proof (find_none _ _ F _ G) as Hp. cbn [fst] in Hp.
    rewrite String.eqb_refl in Hp. discriminate Hp.
Qed.

Lemma X10_witness :
  dict_get (normalized_robot_times casa_libs
              (to_dict [("Casa"%string, number 0.4); ("Pan"%string, number 0.3);
                        ("Casa"%string, number 0.5)]))
    (normalize_key casa_libs "Casa")
  = last_row_value "Casa" [("Casa"%string, number 0.4); ("Pan"%string, number 0.3);
                           ("Casa"%string, number 0.5)].
Proof.
  apply X10_table_lookup_without_collision.
  intros k' v' Hin Hk. cbn [In] in Hin.
  destruct Hin as [Hin|[Hin|[Hin|[]]]]; injection Hin as <- <-;
    [reflexivity | vm_compute in Hk; discriminate Hk | reflexivity].
Defined.

(** ** The report of a batch (lines 177-198) *)

Lemma process_files_rows L fuel src dst root files rt :
  forall acc report,
    process_files L fuel src dst root files rt acc = Return report ->
    report = acc ++ rows_of_files L fuel src dst root files rt.
Proof.
  induction files as [|x files IH]; intros acc report H;
    cbn [process_files rows_of_files flat_map] in *.
  - injection H as <-. rewrite app_nil_r. reflexivity.
  - fold (rows_of_files L fuel src dst root files rt).
    destruct (walker_selects x).
    + destruct (process_wav_file L fuel (path_join root x) dst
                  (relpath L (path_join root x) src) rt)
        as [[[f inc]|]| |]; cbn [bind] in H; try discriminate H.
      apply IH in H. subst report.
      destruct inc; [rewrite <- app_assoc|]; reflexivity.
    + exact (IH _ _ H).
Qed.

Lemma process_walk_rows L fuel src dst walk rt :
  forall acc report,
    process_walk L fuel src dst walk rt acc = Return report ->
    report = acc ++ rows_of_walk L fuel src dst walk rt.
Proof.
  induction walk as [|[root files] walk IH]; intros acc report H;
    cbn [process_walk rows_of_walk flat_map fst snd] in *.
  - injection H as <-. rewrite app_nil_r. reflexivity.
  - fold (rows_of_walk L fuel src dst walk rt).
    destruct (process_files L fuel src dst root files rt acc) as [acc'| |] eqn:Hf;
      cbn [bind] in H; try discriminate H.
    apply process_files_rows in Hf. apply IH in H. subst report acc'.
    rewrite <- app_assoc. reflexivity.
Qed.

Lemma rows_of_files_origin L fuel src dst root files rt f :
  In f (rows_of_files L fuel src dst root files rt) ->
  exists file,
    In file files /\ walker_selects file = true
    /\ process_wav_file L fuel (path_join root file) dst
         (relpath L (path_join root file) src) rt = Return (Some (f, true)).
Proof.
  unfold rows_of_files. intro H. apply in_flat_map in H.
  destruct H as (file & Hin & Hf). exists file.
  destruct (walker_selects file); [|destruct Hf].
  destruct (process_wav_file L fuel (path_join root file) dst
              (relpath L (path_join root file) src) rt)
    as [[[f' inc]|]| |]; try (destruct Hf; fail).
  destruct inc; [|destruct Hf]. destruct Hf as [->|[]].
  split; [exact Hin|]. split; reflexivity.
Qed.

(** X11.  When the batch returns, its report is exactly the rows of the
    selected files that were processed with a true inclusion flag, one
    row per such file, directory after directory and file after file in
    the order of the traversal. *)
Theorem X11_report_rows_in_traversal_order :
  forall L fuel src dst rt report,
    copy_directory_with_wav_processing L fuel src dst rt = Return report ->
    report = rows_of_walk L fuel src dst (os_walk L src) rt.
Proof.
  intros L fuel src dst rt report H.
  unfold copy_directory_with_wav_processing in H.
  apply process_walk_rows in H. exact H.
Qed.

Lemma two_dirs_report :
  copy_directory_with_wav_processing two_dirs_libs 40 "data" "out"
    [("casa"%string, number 0.5)]
  = Return [ {| File_name := "out/data/a(casa).wav";
                Reaction_time := Finite (frames_to_time 0 - 0.5);
                Total_duration := (frames_to_time 31 - frames_to_time 0)%Q |};
             {| File_name := "out/data/b/b(casa).wav";
                Reaction_time := Finite (frames_to_time 0 - 0.5);
                Total_duration := (frames_to_time 31 - frames_to_time 0)%Q |} ].
Proof. vm_compute. reflexivity. Qed.

Lemma X11_witness :
  [ {| File_name := "out/data/a(casa).wav";
       Reaction_time := Finite (frames_to_time 0 - 0.5);
       Total_duration := (frames_to_time 31 - frames_to_time 0)%Q |};
    {| File_name := "out/data/b/b(casa).wav";
       Reaction_time := Finite (frames_to_time 0 - 0.5);
       Total_duration := (frames_to_time 31 - frames_to_time 0)%Q |} ]
  = rows_of_walk two_dirs_libs 40 "data" "out" (os_walk two_dirs_libs "data")
      [("casa"%string, number 0.5)].
Proof.
  exact (X11_report_rows_in_traversal_order two_dirs_libs 40 "data" "out"
           [("casa"%string, number 0.5)] _ two_dirs_report).
Defined.

(** X12.  Every row of a returned report comes from a selected file of
    the traversal whose processing ended with a true inclusion flag; its
    total duration lies in [0.3, 3] and its reaction time, when it is a
    number, lies in [-0.5, 2]. *)
Theorem X12_report_rows_within_window :
  forall L fuel src dst rt report f,
    copy_directory_with_wav_processing L fuel src dst rt = Return report ->
    In f report ->
    (exists root files file,
       In (root, files) (os_walk L src) /\ In file files
       /\ walker_selects file = true
       /\ process_wav_file L fuel (path_join root file) dst
            (relpath L (path_join root file) src) rt = Return (Some (f, true)))
    /\ ((0.3 <= Total_duration f)%Q /\ (Total_duration f <= 3)%Q)
    /\ (forall a, Reaction_time f = Finite a -> (-0.5 <= a)%Q /\ (a <= 2)%Q).
Proof.
  intros L fuel src dst rt report f H Hin.
  unfold copy_directory_with_wav_processing in H.
  apply process_walk_rows in H. subst report. cbn [app] in Hin.
  unfold rows_of_walk in Hin. apply in_flat_map in Hin.
  destruct Hin as ([root files] & Hw & Hf). cbn [fst snd] in Hf.
  apply rows_of_files_origin in Hf. destruct Hf as (file & Hfile & Hsel & Hp).
  split; [exists root, files, file; repeat split; assumption|].
  apply process_wav_file_returns in Hp.
  destruct Hp as (_ & audio & word & sound & onset & dur & reference & real_onset
                  & _ & _ & _ & _ & _ & -> & Hacc).
  cbn [Reaction_time Total_duration]. symmetry in Hacc.
  destruct real_onset as [a|].
  - apply acceptance_window in Hacc. destruct Hacc as [Hrt Hdur].
    split; [exact Hdur|]. intros a' Ha. injection Ha as <-. exact Hrt.
  - apply acceptance_nan in Hacc. split; [exact Hacc|].
    intros a' Ha. discriminate Ha.
Qed.

Lemma X12_witness :
  ((0.3 <= Total_duration long_features)%Q /\ (Total_duration long_features <= 3)%Q)
  /\ (forall a, Reaction_time long_features = Finite a ->
        (-0.5 <= a)%Q /\ (a <= 2)%Q).
Proof.
  refine (proj2 (X12_report_rows_within_window
            (fixed_libs (Some (repeat 0%Q (31 * 256))) long_envelope
               [("data"%string, ["rec(casa).wav"%string])] [])
            40 "data" "out" [("casa"%string, number 0.5)]
            [ {| File_name := "out/data/rec(casa).wav";
                 Reaction_time := Finite (frames_to_time 0 - 0.5);
                 Total_duration := (frames_to_time 31 - frames_to_time 0)%Q |} ]
            {| File_name := "out/data/rec(casa).wav";
               Reaction_time := Finite (frames_to_time 0 - 0.5);
               Total_duration := (frames_to_time 31 - frames_to_time 0)%Q |} _ _)).
  - vm_compute. reflexivity.
  - left. reflexivity.
Defined.

(** X13.  Files that fail the walker's filter have no influence on a
    batch: the outcome over a traversal, report or error, is the outcome
    over the same traversal with those files removed. *)
Theorem X13_unselected_files_ignored :
  forall L fuel src dst walk rt acc,
    process_walk L fuel src dst walk rt acc
    = process_walk L fuel src dst (selected_only walk) rt acc.
Proof.
  intros L fuel src dst walk rt.
  assert (G : forall root files acc,
            process_files L fuel src dst root files rt acc
            = process_files L fuel src dst root (filter walker_selects files) rt acc).
  { intros root files. induction files as [|x files IH]; intro acc;
      cbn [process_files filter]; [reflexivity|].
    destruct (walker_selects x) eqn:E; cbn [process_files]; [rewrite E|apply IH].
    destruct (process_wav_file L fuel (path_join root x) dst
                (relpath L (path_join root x) src) rt) as [[[f inc]|]| |];
      cbn [bind]; try reflexivity. apply IH. }
  induction walk as [|[root files] walk IH]; intro acc;
    cbn [selected_only map process_walk fst snd]; [reflexivity|].
  rewrite <- G.
  destruct (process_files L fuel src dst root files rt acc); cbn [bind];
    [apply IH | reflexivity | reflexivity].
Qed.

(** ** A scan that runs off the left edge *)

Lemma frames_to_time_lt (a b : Z) : a < b -> (frames_to_time a < frames_to_time b)%Q.
Proof.
  intro H. unfold frames_to_time, Qdiv.
  apply Qmult_lt_r; [reflexivity|].
  rewrite <- Zlt_Qlt. unfold HOP_LENGTH. lia.
Qed.

(** X14.  When the left scan runs off the envelope (start frame -1), the
    onset is read at the last entry of the time table, the total
    duration [t[end] - t[-1]] is negative, and the file is processed
    with a false inclusion flag: a recording whose speech reaches back
    to its first frame is left out of the report. *)
Theorem X14_start_off_edge_excluded :
  forall L fuel input out rel rt audio word end_ reference,
    endswith input ".wav" = true ->
    librosa_load L input = Some audio ->
    re_search_parens input = Some word ->
    degenerate (analysis_envelope L audio LIBROSA_DEFAULT_SR) = false ->
    slice_boundaries fuel (normalize (analysis_envelope L audio LIBROSA_DEFAULT_SR))
      word THRESHOLD THRESHOLD_END MAX_PAUSE_FRAMES = Return (-1, end_) ->
    0 <= end_ < Z.of_nat (List.length audio) - 1 ->
    dict_get rt word = Some (number reference) ->
    exists f,
      process_wav_file L fuel input out rel rt = Return (Some (f, false))
      /\ is_number (Reaction_time f)
           (frames_to_time (Z.of_nat (List.length audio) - 1) - reference)
      /\ (Total_duration f < 0)%Q.
Proof.
  intros L fuel input out rel rt audio word end_ reference
         Hext Hload Hword D Hb He Hget.
  destruct (nondegenerate_spread _ D) as [Hne _].
  assert (Hslice :
    slice_noise_reduced_audio_files_byt L fuel audio LIBROSA_DEFAULT_SR input word
      THRESHOLD THRESHOLD_END NORMALIZE_RMS
    = Return (Samples (py_slice audio (-1 * HOP_LENGTH)
                         (end_ * HOP_LENGTH + FRAME_SIZE)),
              frames_to_time (Z.of_nat (List.length audio) + -1),
              (frames_to_time end_
               - frames_to_time (Z.of_nat (List.length audio) + -1))%Q)).
  { rewrite (slice_runs L fuel audio LIBROSA_DEFAULT_SR input word THRESHOLD
               THRESHOLD_END NORMALIZE_RMS (-1, end_) Hne D Hb).
    cbn [fst snd]. unfold slice_outputs, t_at.
    replace ((0 <=? end_) && (end_ <? Z.of_nat (List.length audio))) with true
      by (symmetry; apply andb_true_iff; split;
          [apply Z.leb_le | apply Z.ltb_lt]; lia).
    replace (0 <=? -1) with false by reflexivity. cbn [andb].
    replace ((- Z.of_nat (List.length audio) <=? -1) && (-1 <? 0)) with true
      by (symmetry; apply andb_true_iff; split;
          [apply Z.leb_le; lia | reflexivity]).
    reflexivity. }
  rewrite (process_wav_file_run L fuel input out rel rt audio word _ _ _
             Hext Hload Hword Hslice), Hget.
  cbn [number minus_reference bind].
  assert (Hneg : (frames_to_time end_
                  - frames_to_time (Z.of_nat (List.length audio) + -1) < 0)%Q).
  { pose proof (frames_to_time_lt end_ (Z.of_nat (List.length audio) + -1)
                  ltac:(lia)). lra. }
  eexists. split; [|split].
  - f_equal. f_equal. f_equal. unfold acceptance.
    replace (Qltb (frames_to_time end_
                   - frames_to_time (Z.of_nat (List.length audio) + -1)) 0.3)
      with true by (symmetry; apply Qltb_true; lra).
    rewrite orb_true_r. reflexivity.
  - cbn [Reaction_time is_number].
    replace (Z.of_nat (List.length audio) + -1)
      with (Z.of_nat (List.length audio) - 1) by lia. reflexivity.
  - cbn [Total_duration]. exact Hneg.
Qed.

Lemma X14_witness :
  exists f,
    process_wav_file full_libs 10 "data/rec(casa).wav" "out" "rec(casa).wav"
      [("casa"%string, number 0.5)] = Return (Some (f, false))
    /\ is_number (Reaction_time f)
         (frames_to_time (Z.of_nat (List.length samples_768) - 1) - 0.5)
    /\ (Total_duration f < 0)%Q.
Proof.
  apply (X14_start_off_edge_excluded full_libs 10 "data/rec(casa).wav" "out"
           "rec(casa).wav" [("casa"%string, number 0.5)] samples_768 "casa" 4 0.5%Q).
  - vm_compute. reflexivity.
  - reflexivity.
  - vm_compute. reflexivity.
  - vm_compute. reflexivity.
  - vm_compute. reflexivity.
  - vm_compute. split; [discriminate | reflexivity].
  - reflexivity.
Defined.

(** ** The exported samples (line 121) *)

Lemma py_slice_segment {A : Type} (l : list A) (a b : Z) :
  exists pre post, l = pre ++ py_slice l a b ++ post.
Proof.
  unfold py_slice.
  set (a' := Z.to_nat (clamp_index (Z.of_nat (List.length l)) a)).
  set (n := Z.to_nat (clamp_index (Z.of_nat (List.length l)) b
                      - clamp_index (Z.of_nat (List.length l)) a)).
  exists (firstn a' l), (skipn n (skipn a' l)).
  rewrite (firstn_skipn n (skipn a' l)), (firstn_skipn a' l). reflexivity.
Qed.

(** X15.  Whenever the function returns sliced samples, they are a
    contiguous run of the samples it was given, the original recording,
    and hence never longer than it; the denoised signal only feeds the
    envelope. *)
Theorem X15_slice_is_segment_of_original :
  forall L fuel audio rate fname word thr thr_end (norm : bool) sound onset dur,
    slice_noise_reduced_audio_files_byt L fuel audio rate fname word thr thr_end
      norm = Return (Samples sound, onset, dur) ->
    (exists pre post, audio = pre ++ sound ++ post)
    /\ (List.length sound <= List.length audio)%nat.
Proof.
  intros L fuel audio rate fname word thr thr_end norm sound onset dur H.
  assert (Hseg : exists pre post, audio = pre ++ sound ++ post).
  { unfold slice_noise_reduced_audio_files_byt in H.
    destruct (analysis_envelope L audio rate) as [|x l]; [discriminate H|].
    destruct (Qeq_bool (np_max (x :: l) - np_min (x :: l)) 0); [discriminate H|].
    destruct (slice_boundaries fuel (if norm then normalize (x :: l) else x :: l)
                word thr thr_end MAX_PAUSE_FRAMES) as [[s e]| |];
      cbn [bind fst snd] in H; try discriminate H.
    unfold slice_outputs in H.
    destruct (t_at (Z.of_nat (List.length audio)) e); [|discriminate H].
    destruct (t_at (Z.of_nat (List.length audio)) s); [|discriminate H].
    cbn [of_option bind] in H. injection H as <- _ _.
    apply py_slice_segment. }
  split; [exact Hseg|].
  destruct Hseg as (pre & post & Heq).
  apply (f_equal (@List.length Q)) in Heq. rewrite !length_app in Heq. lia.
Qed.

Lemma X15_witness :
  (exists pre post,
     samples_1280 = pre ++ py_slice samples_1280 (1 * HOP_LENGTH)
                             (4 * HOP_LENGTH + FRAME_SIZE) ++ post)
  /\ (List.length (py_slice samples_1280 (1 * HOP_LENGTH)
                     (4 * HOP_LENGTH + FRAME_SIZE))
      <= List.length samples_1280)%nat.
Proof.
  apply (X15_slice_is_segment_of_original
           (fixed_libs None quiet_edges_envelope [] []) 10 samples_1280 22050
           "rec(casa).wav" "casa" THRESHOLD THRESHOLD_END true _
           (frames_to_time 1) (frames_to_time 4 - frames_to_time 1)).
  vm_compute. reflexivity.
Defined.

(** ** An empty word *)

(** X16.  With nothing between the parentheses the word is empty, and
    on an envelope that passes the validity test and on which both scans
    end, the function raises IndexError at [word[-1]] (line 116). *)
Theorem X16_empty_word_index_error :
  forall L fuel audio rate fname thr thr_end (norm : bool) b,
    degenerate (analysis_envelope L audio rate) = false ->
    boundary_search fuel
      (if norm then normalize (analysis_envelope L audio rate)
       else analysis_envelope L audio rate) thr thr_end MAX_PAUSE_FRAMES = Some b ->
    slice_noise_reduced_audio_files_byt L fuel audio rate fname "" thr thr_end norm
    = Raise IndexError.
Proof.
  intros L fuel audio rate fname thr thr_end norm b D Hb.
  destruct (nondegenerate_spread _ D) as [Hne _].
  unfold slice_noise_reduced_audio_files_byt.
  destruct (analysis_envelope L audio rate) as [|x l] eqn:E; [contradiction|].
  unfold degenerate in D. rewrite D. unfold slice_boundaries. rewrite Hb.
  destruct b. reflexivity.
Qed.

Lemma X16_witness :
  re_search_parens "data/rec().wav" = Some ""%string
  /\ slice_noise_reduced_audio_files_byt
       (fixed_libs None quiet_edges_envelope [] []) 10 samples_1280 22050
       "data/rec().wav" "" THRESHOLD THRESHOLD_END true = Raise IndexError.
Proof.
  split; [reflexivity|].
  apply (X16_empty_word_index_error (fixed_libs None quiet_edges_envelope [] [])
           10 samples_1280 22050 "data/rec().wav" THRESHOLD THRESHOLD_END true
           (1, 4)).
  - vm_compute. reflexivity.
  - vm_compute. reflexivity.
Defined.

(** ** The pause cap is honoured *)

Lemma right_probe_spec n rms thr e :
  forall c,
    c <= right_probe n rms thr e c <= c + Z.of_nat n
    /\ (right_probe n rms thr e c = c + Z.of_nat n
        \/ (e + right_probe n rms thr e c <? size rms)
           && Qltb (rms_get rms (e + right_probe n rms thr e c)) thr = false).
Proof.
  induction n as [|n IH]; intro c; cbn [right_probe].
  - split; [lia | left; lia].
  - destruct ((e + c <? size rms) && Qltb (rms_get rms (e + c)) thr) eqn:G.
    + destruct (IH (c + 1)) as [H1 H2]. split; [lia|].
      destruct H2 as [H2|H2]; [left; lia | right; exact H2].
    + split; [lia | right; exact G].
Qed.

Lemma left_probe_spec n rms thr s :
  forall c,
    c <= left_probe n rms thr s c <= c + Z.of_nat n
    /\ (left_probe n rms thr s c = c + Z.of_nat n
        \/ (0 <=? s - left_probe n rms thr s c)
           && Qltb (rms_get rms (s - left_probe n rms thr s c)) thr = false).
Proof.
  induction n as [|n IH]; intro c; cbn [left_probe].
  - split; [lia | left; lia].
  - destruct ((0 <=? s - c) && Qltb (rms_get rms (s - c)) thr) eqn:G.
    + destruct (IH (c + 1)) as [H1 H2]. split; [lia|].
      destruct H2 as [H2|H2]; [left; lia | right; exact H2].
    + split; [lia | right; exact G].
Qed.

(** An iteration of the right scan from a frame at or before a run of
    [maxp] quiet frames stays at or before the first frame of the run. *)
Lemma right_body_before_run rms thr maxp i e :
  1 <= maxp -> e <= i -> i + maxp <= size rms ->
  below_run_right rms thr i maxp ->
  fst (right_body rms thr maxp e) <= i.
Proof.
  intros Hm He Hi Hrun. unfold right_body.
  destruct (Qgtb (rms_get rms e) thr) eqn:Hgt.
  - cbn [fst]. assert (e <> i); [|lia]. intros ->.
    specialize (Hrun 0 ltac:(lia)). rewrite Z.add_0_r in Hrun.
    rewrite (Qgtb_false_of_lt _ _ Hrun) in Hgt. discriminate Hgt.
  - destruct (right_probe_spec (Z.to_nat maxp) rms thr e 0) as [Hc Hstop].
    set (count := right_probe (Z.to_nat maxp) rms thr e 0) in *.
    destruct ((e + count =? size rms) || (count =? maxp)) eqn:E; cbn [fst]; [lia|].
    apply orb_false_iff in E. destruct E as [_ E]. apply Z.eqb_neq in E.
    destruct Hstop as [Hstop|Hstop]; [lia|].
    destruct (Z_le_gt_dec (e + count) i) as [Hle|Hgt']; [exact Hle|]. exfalso.
    specialize (Hrun (e + count - i) ltac:(lia)).
    replace (i + (e + count - i)) with (e + count) in Hrun by lia.
    apply Qltb_true in Hrun. rewrite Hrun in Hstop.
    replace (e + count <? size rms) with true in Hstop
      by (symmetry; apply Z.ltb_lt; lia).
    discriminate Hstop.
Qed.

Lemma left_body_before_run rms thr maxp i s :
  1 <= maxp -> i <= s -> -1 <= i - maxp ->
  below_run_left rms thr i maxp ->
  i <= fst (left_body rms thr maxp s).
Proof.
  intros Hm Hs Hi Hrun. unfold left_body.
  destruct (Qgtb (rms_get rms s) thr) eqn:Hgt.
  - cbn [fst]. assert (s <> i); [|lia]. intros ->.
    specialize (Hrun 0 ltac:(lia)). rewrite Z.sub_0_r in Hrun.
    rewrite (Qgtb_false_of_lt _ _ Hrun) in Hgt. discriminate Hgt.
  - destruct (left_probe_spec (Z.to_nat maxp) rms thr s 0) as [Hc Hstop].
    set (count := left_probe (Z.to_nat maxp) rms thr s 0) in *.
    destruct ((s - count =? -1) || (count =? maxp)) eqn:E; cbn [fst]; [lia|].
    apply orb_false_iff in E. destruct E as [_ E]. apply Z.eqb_neq in E.
    destruct Hstop as [Hstop|Hstop]; [lia|].
    destruct (Z_le_gt_dec i (s - count)) as [Hle|Hgt']; [exact Hle|]. exfalso.
    specialize (Hrun (i - (s - count)) ltac:(lia)).
    replace (i - (i - (s - count))) with (s - count) in Hrun by lia.
    apply Qltb_true in Hrun. rewrite Hrun in Hstop.
    replace (0 <=? s - count) with true in Hstop
      by (symmetry; apply Z.leb_le; lia).
    discriminate Hstop.
Qed.

Lemma right_loop_before_run fuel rms thr maxp i :
  1 <= maxp -> i + maxp <= size rms -> below_run_right rms thr i maxp ->
  forall e flag r,
    e <= i -> right_loop fuel rms thr maxp e flag = Some r -> r <= i.
Proof.
  intros Hm Hi Hrun. induction fuel as [|fuel IH]; intros e flag r He H.
  - simpl in H. destruct ((e <? size rms) && flag); [discriminate H|].
    injection H as <-. exact He.
  - destruct ((e <? size rms) && flag) eqn:G.
    + apply andb_true_iff in G. destruct G as [G ->]. apply Z.ltb_lt in G.
      rewrite right_loop_step in H by assumption.
      exact (IH _ _ _ (right_body_before_run rms thr maxp i e Hm He Hi Hrun) H).
    + rewrite right_loop_exit in H by assumption. injection H as <-. exact He.
Qed.

Lemma left_loop_before_run fuel rms thr maxp i :
  1 <= maxp -> -1 <= i - maxp -> below_run_left rms thr i maxp ->
  forall s flag r,
    i <= s -> left_loop fuel rms thr maxp s flag = Some r -> i <= r.
Proof.
  intros Hm Hi Hrun. induction fuel as [|fuel IH]; intros s flag r Hs H.
  - simpl in H. destruct ((0 <=? s) && flag); [discriminate H|].
    injection H as <-. exact Hs.
  - destruct ((0 <=? s) && flag) eqn:G.
    + apply andb_true_iff in G. destruct G as [G ->]. apply Z.leb_le in G.
      rewrite left_loop_step in H by assumption.
      exact (IH _ _ _ (left_body_before_run rms thr maxp i s Hm Hs Hi Hrun) H).
    + rewrite left_loop_exit in H by assumption. injection H as <-. exact Hs.
Qed.

(** X17.  A scan never gets past a pause as long as the cap: if [maxp]
    consecutive frames below the right threshold start at a frame [i] at
    or after the loudest frame, the end the search returns is at most
    [i]; if [maxp] consecutive frames below the left threshold start at
    [i] going left from the loudest frame, the start is at least [i]. *)
Theorem X17_pause_cap_stops_scan :
  forall fuel rms thr thr_end maxp start end_,
    1 <= maxp ->
    boundary_search fuel rms thr thr_end maxp = Some (start, end_) ->
    (forall i, np_argmax rms <= i -> i + maxp <= size rms ->
       below_run_right rms thr_end i maxp -> end_ <= i)
    /\ (forall i, i <= np_argmax rms -> -1 <= i - maxp ->
          below_run_left rms thr i maxp -> i <= start).
Proof.
  intros fuel rms thr thr_end maxp start end_ Hm H.
  unfold boundary_search in H.
  destruct (left_loop fuel rms thr maxp (np_argmax rms) true) as [s|] eqn:Hl;
    [|discriminate H].
  destruct (right_loop fuel rms thr_end maxp (np_argmax rms) true) as [e|] eqn:Hr;
    [|discriminate H].
  injection H as <- <-. split.
  - intros i Hi Hsz Hrun.
    exact (right_loop_before_run fuel rms thr_end maxp i Hm Hsz Hrun _ _ _ Hi Hr).
  - intros i Hi Hsz Hrun.
    exact (left_loop_before_run fuel rms thr maxp i Hm Hsz Hrun _ _ _ Hi Hl).
Qed.

Lemma paused_envelope_run :
  below_run_right paused_envelope THRESHOLD_END 1 MAX_PAUSE_FRAMES.
Proof.
  intros j Hj. unfold MAX_PAUSE_FRAMES in Hj.
  assert (Hex : exists n, (n < 20)%nat /\ j = Z.of_nat n)
    by (exists (Z.to_nat j); lia).
  destruct Hex as (n & Hn & ->).
  do 20 (destruct n as [|n]; [vm_compute; reflexivity|]). lia.
Qed.

Lemma X17_witness :
  boundary_search 10 paused_envelope THRESHOLD THRESHOLD_END MAX_PAUSE_FRAMES
  = Some (-1, 1)
  /\ 1 <= 1.
Proof.
  split; [vm_compute; reflexivity|].
  refine (proj1 (X17_pause_cap_stops_scan 10 paused_envelope THRESHOLD
                   THRESHOLD_END MAX_PAUSE_FRAMES (-1) 1 _ _) 1 _ _
                paused_envelope_run).
  - unfold MAX_PAUSE_FRAMES. lia.
  - vm_compute. reflexivity.
  - vm_compute. discriminate.
  - vm_compute. discriminate.
Defined.

(** ** The function returns or raises away from the thresholds *)

Lemma boundary_search_ends rms thr thr_end maxp :
  rms <> [] -> 0 <= maxp ->
  (forall x, In x rms -> ~ (x == thr)%Q) ->
  (forall x, In x rms -> ~ (x == thr_end)%Q) ->
  exists b, forall fuel, (S (List.length rms) <= fuel)%nat ->
    boundary_search fuel rms thr thr_end maxp = Some b.
Proof.
  intros Hne Hm Hl Hr. pose proof (np_argmax_lt rms Hne) as Hmid.
  destruct (left_loop_ends rms thr maxp Hm Hl (S (List.length rms))
              (np_argmax rms) true ltac:(unfold size in *; lia) ltac:(lia))
    as [s Hs].
  destruct (right_loop_ends rms thr_end maxp Hm Hr (S (List.length rms))
              (np_argmax rms) true ltac:(unfold size in *; lia) ltac:(lia))
    as [e He].
  exists (s, e). intros fuel Hfuel. unfold boundary_search.
  rewrite Hs, He by assumption. reflexivity.
Qed.

Lemma slice_outputs_not_out_of_fuel audio s e :
  slice_outputs audio s e <> OutOfFuel.
Proof.
  unfold slice_outputs.
  destruct (t_at (Z.of_nat (List.length audio)) e); cbn [of_option bind];
    [|discriminate].
  destruct (t_at (Z.of_nat (List.length audio)) s); cbn [of_option bind];
    discriminate.
Qed.

(** X19.  When no frame of the envelope the scans run on (rescaled or
    not, as [normalize_rms] says) equals the left or the right
    threshold, a call given at least [len + 1] iterations returns or
    raises, and further iterations do not change its outcome: the
    function terminates on such a recording. *)
Theorem X19_slice_terminates_off_threshold :
  forall L fuel audio rate fname word thr thr_end (norm : bool),
    (forall x,
       In x (if norm then normalize (analysis_envelope L audio rate)
             else analysis_envelope L audio rate) -> ~ (x == thr)%Q) ->
    (forall x,
       In x (if norm then normalize (analysis_envelope L audio rate)
             else analysis_envelope L audio rate) -> ~ (x == thr_end)%Q) ->
    (S (List.length (analysis_envelope L audio rate)) <= fuel)%nat ->
    slice_noise_reduced_audio_files_byt L fuel audio rate fname word thr thr_end
      norm <> OutOfFuel
    /\ slice_noise_reduced_audio_files_byt L fuel audio rate fname word thr
         thr_end norm
       = slice_noise_reduced_audio_files_byt L
           (S (List.length (analysis_envelope L audio rate))) audio rate fname
           word thr thr_end norm.
Proof.
  intros L fuel audio rate fname word thr thr_end norm Hl Hr Hfuel.
  unfold slice_noise_reduced_audio_files_byt.
  destruct (analysis_envelope L audio rate) as [|a l] eqn:E;
    [split; [discriminate | reflexivity]|].
  destruct (Qeq_bool (np_max (a :: l) - np_min (a :: l)) 0);
    [split; [discriminate | reflexivity]|].
  set (env := if norm then normalize (a :: l) else a :: l) in *.
  assert (Hlen : List.length env = List.length (a :: l))
    by (subst env; destruct norm; [apply length_map | reflexivity]).
  assert (Hne : env <> [])
    by (intro H0; rewrite H0 in Hlen; discriminate Hlen).
  destruct (boundary_search_ends env thr thr_end MAX_PAUSE_FRAMES Hne
              ltac:(unfold MAX_PAUSE_FRAMES; lia) Hl Hr) as [[s e] Hb].
  unfold slice_boundaries.
  rewrite (Hb fuel) by (rewrite Hlen; exact Hfuel).
  rewrite (Hb (S (List.length (a :: l)))) by (rewrite Hlen; apply le_n).
  split; [|reflexivity].
  destruct (lexical_extension word env e) as [e'| x |] eqn:Hx; cbn [bind fst snd].
  - apply slice_outputs_not_out_of_fuel.
  - discriminate.
  - unfold lexical_extension in Hx.
    destruct (last_char word); cbn [of_option bind] in Hx; [|discriminate Hx].
    destruct (negb (is_aeiou a0)); discriminate Hx.
Qed.

Lemma quiet_edges_off_threshold :
  forall x, In x (normalize quiet_edges_envelope) -> ~ (x == 0.015)%Q.
Proof.
  intros x Hx H. vm_compute in Hx.
  repeat (destruct Hx as [<-|Hx]; [vm_compute in H; discriminate H|]).
  exact Hx.
Qed.

Lemma X19_witness :
  slice_noise_reduced_audio_files_byt (fixed_libs None quiet_edges_envelope [] [])
    40 samples_1280 22050 "rec(casa).wav" "casa" THRESHOLD THRESHOLD_END true
  <> OutOfFuel
  /\ slice_noise_reduced_audio_files_byt (fixed_libs None quiet_edges_envelope [] [])
       40 samples_1280 22050 "rec(casa).wav" "casa" THRESHOLD THRESHOLD_END true
     = slice_noise_reduced_audio_files_byt
         (fixed_libs None quiet_edges_envelope [] [])
         (S (List.length (analysis_envelope
                            (fixed_libs None quiet_edges_envelope [] [])
                            samples_1280 22050)))
         samples_1280 22050 "rec(casa).wav" "casa" THRESHOLD THRESHOLD_END true.
Proof.
  apply X19_slice_terminates_off_threshold.
  - exact quiet_edges_off_threshold.
  - exact quiet_edges_off_threshold.
  - cbn. lia.
Defined.

(** ** Times of a slice that starts inside the envelope *)

Lemma slice_boundaries_order fuel rms word thr thr_end maxp s e :
  rms <> [] ->
  slice_boundaries fuel rms word thr thr_end maxp = Return (s, e) -> s <= e.
Proof.
  intros Hne H. unfold slice_boundaries in H.
  destruct (boundary_search fuel rms thr thr_end maxp) as [[s0 e0]|] eqn:Hb;
    [|discriminate H].
  destruct (lexical_extension word rms e0) as [e'| |] eqn:Hx;
    cbn [bind] in H; try discriminate H.
  injection H as -> ->.
  apply boundary_search_range in Hb. apply lexical_extension_cases in Hx.
  destruct Hx as (c & _ & ->). pose proof (np_argmax_lt rms Hne).
  destruct (negb (is_aeiou c)); [|lia].
  destruct (size rms <=? e0 + 12); lia.
Qed.

(** X20.  When the frame pair starts inside the envelope ([0 <= start])
    and lies inside the time table, the call returns sliced samples with
    an onset and a total duration that are not negative. *)
Theorem X20_times_not_negative :
  forall L fuel audio rate fname word thr thr_end (norm : bool) start end_,
    degenerate (analysis_envelope L audio rate) = false ->
    slice_boundaries fuel
      (if norm then normalize (analysis_envelope L audio rate)
       else analysis_envelope L audio rate)
      word thr thr_end MAX_PAUSE_FRAMES = Return (start, end_) ->
    0 <= start -> end_ < Z.of_nat (List.length audio) ->
    exists sound onset dur,
      slice_noise_reduced_audio_files_byt L fuel audio rate fname word thr
        thr_end norm = Return (Samples sound, onset, dur)
      /\ (0 <= onset)%Q /\ (0 <= dur)%Q.
Proof.
  intros L fuel audio rate fname word thr thr_end norm start end_ D Hb Hs He.
  destruct (nondegenerate_spread _ D) as [Hne _].
  assert (Hne' : (if norm then normalize (analysis_envelope L audio rate)
                  else analysis_envelope L audio rate) <> [])
    by (destruct norm; [apply normalize_nonempty|]; exact Hne).
  pose proof (slice_boundaries_order _ _ _ _ _ _ _ _ Hne' Hb) as Hord.
  rewrite (slice_runs L fuel audio rate fname word thr thr_end norm
             (start, end_) Hne D Hb).
  cbn [fst snd]. unfold slice_outputs, t_at.
  replace ((0 <=? end_) && (end_ <? Z.of_nat (List.length audio))) with true
    by (symmetry; apply andb_true_iff; split;
        [apply Z.leb_le | apply Z.ltb_lt]; lia).
  replace ((0 <=? start) && (start <? Z.of_nat (List.length audio))) with true
    by (symmetry; apply andb_true_iff; split;
        [apply Z.leb_le | apply Z.ltb_lt]; lia).
  cbn [of_option bind]. eexists _, _, _. split; [reflexivity|].
  assert (H0 : (frames_to_time 0 == 0)%Q) by reflexivity.
  split.
  - destruct (Z.eq_dec start 0) as [->|Hnz]; [rewrite H0; lra|].
    pose proof (frames_to_time_lt 0 start ltac:(lia)). lra.
  - destruct (Z.eq_dec start end_) as [->|Hnz]; [lra|].
    pose proof (frames_to_time_lt start end_ ltac:(lia)). lra.
Qed.

Lemma X20_witness :
  exists sound onset dur,
    slice_noise_reduced_audio_files_byt (fixed_libs None quiet_edges_envelope [] [])
      10 samples_1280 22050 "rec(casa).wav" "casa" THRESHOLD THRESHOLD_END true
    = Return (Samples sound, onset, dur)
    /\ (0 <= onset)%Q /\ (0 <= dur)%Q.
Proof.
  apply (X20_times_not_negative (fixed_libs None quiet_edges_envelope [] [])
           10 samples_1280 22050 "rec(casa).wav" "casa" THRESHOLD THRESHOLD_END
           true 1 4).
  - vm_compute. reflexivity.
  - vm_compute. reflexivity.
  - lia.
  - vm_compute. reflexivity.
Defined.
